(** * A shallow embedding of the pricesmurf JSON helpers, margin pipeline
    orchestrator and upload / session / combine routes. *)

From Stdlib Require Import List String Ascii NArith ZArith QArith Bool Lia.
From Stdlib Require Import DecimalString Lqa Qround.
Import ListNotations.
Set Warnings "-register-all".


(* ------------------------------------------------------------------ *)
(** ** JavaScript strings and JSON values *)

(** A JavaScript string is a sequence of UTF-16 code units. *)
Definition jschar := N.
Definition jsstr := list jschar.

(** Literal helper: the code units of an ASCII Rocq string. *)
Definition js (s : string) : jsstr :=
  map (fun a => N.of_nat (nat_of_ascii a)) (list_ascii_of_string s).

(** Same, reading [~] as a double quote so that test literals need no
    escaping. *)
Definition jq (s : string) : jsstr :=
  map (fun c => if N.eqb c 126 then 34%N else c) (js s).

Fixpoint jsstr_eqb (a b : jsstr) : bool :=
  match a, b with
  | [], [] => true
  | x :: a', y :: b' => N.eqb x y && jsstr_eqb a' b'
  | _, _ => false
  end.

(** JSON values as [JSON.parse] builds them. Numbers are kept as exact
    decimals [m * 10^e]; the rounding to a double is not modelled. Object
    members are kept in insertion order; a repeated key overwrites the value
    in place, as a JavaScript object does. *)
Inductive json : Type :=
| JNull
| JBool (b : bool)
| JNum (m : Z) (e : Z)
| JStr (s : jsstr)
| JArr (l : list json)
| JObj (kvs : list (jsstr * json)).

(** [obj[k] = v] on a string-keyed record (a JavaScript object, a Mongo
    document): an existing key keeps its place, a new one goes last. *)
Fixpoint obj_set {A : Type} (kvs : list (jsstr * A)) (k : jsstr) (v : A)
  : list (jsstr * A) :=
  match kvs with
  | [] => [(k, v)]
  | (k', v') :: r =>
      if jsstr_eqb k k' then (k', v) :: r else (k', v') :: obj_set r k v
  end.

Fixpoint obj_lookup {A : Type} (kvs : list (jsstr * A)) (k : jsstr) : option A :=
  match kvs with
  | [] => None
  | (k', v) :: r => if jsstr_eqb k k' then Some v else obj_lookup r k
  end.

(** JavaScript truthiness of a value ([None] is [undefined]). A number
    [m * 10^e] is falsy when its double is zero: [m = 0], or the value is at
    most [2^-1075] in magnitude and rounds (to nearest, ties to even) to
    zero, as [1e-400] does. *)
Definition js_truthy (v : json) : bool :=
  match v with
  | JNull => false
  | JBool b => b
  | JNum m e =>
      negb (Z.eqb m 0)
      && (if Z.leb 0 e then true
          else Z.ltb (10 ^ (- e)) (Z.abs m * 2 ^ 1075))%Z
  | JStr s => match s with [] => false | _ => true end
  | JArr _ | JObj _ => true
  end.

(* ------------------------------------------------------------------ *)
(** ** [JSON.parse] (ECMA-404 grammar, as used by ECMA-262 JSON.parse) *)

Open Scope N_scope.

Definition json_ws (c : jschar) : bool :=
  (c =? 32) || (c =? 9) || (c =? 10) || (c =? 13).

Fixpoint json_skip_ws (s : jsstr) : jsstr :=
  match s with
  | c :: r => if json_ws c then json_skip_ws r else s
  | [] => []
  end.

Definition is_digit (c : jschar) : bool := (48 <=? c) && (c <=? 57).

Fixpoint take_digits (s : jsstr) : jsstr * jsstr :=
  match s with
  | c :: r => if is_digit c then let (d, r') := take_digits r in (c :: d, r')
              else ([], s)
  | [] => ([], [])
  end.

Definition digits_value (d : jsstr) : Z :=
  fold_left (fun acc c => (acc * 10 + Z.of_N (c - 48))%Z) d 0%Z.

Definition hex_value (c : jschar) : option N :=
  if (48 <=? c) && (c <=? 57) then Some (c - 48)
  else if (97 <=? c) && (c <=? 102) then Some (c - 87)
  else if (65 <=? c) && (c <=? 70) then Some (c - 55)
  else None.

(** Number: [-? (0 | [1-9][0-9]* ) (. [0-9]+)? ([eE] [+-]? [0-9]+)?]. *)
Definition parse_number (s : jsstr) : option (json * jsstr) :=
  let '(neg, s1) := match s with 45 :: r => (true, r) | _ => (false, s) end in
  let int_part :=
    match s1 with
    | 48 :: r => Some ([48], r)
    | c :: r => if (49 <=? c) && (c <=? 57)
                then let (d, r') := take_digits r in Some (c :: d, r')
                else None
    | [] => None
    end in
  match int_part with
  | None => None
  | Some (ip, r1) =>
      let frac :=
        match r1 with
        | 46 :: r => let (d, r') := take_digits r in
                     match d with [] => None | _ => Some (d, r') end
        | _ => Some ([], r1)
        end in
      match frac with
      | None => None
      | Some (fp, r2) =>
          let expo :=
            match r2 with
            | c :: r =>
                if (c =? 101) || (c =? 69) then
                  let '(eneg, r') :=
                    match r with
                    | 43 :: r' => (false, r') | 45 :: r' => (true, r')
                    | _ => (false, r) end in
                  let (d, r'') := take_digits r' in
                  match d with
                  | [] => None
                  | _ => Some (if eneg then Z.opp (digits_value d)
                               else digits_value d, r'')
                  end
                else Some (0%Z, r2)
            | [] => Some (0%Z, r2)
            end in
          match expo with
          | None => None
          | Some (ex, r3) =>
              let m := digits_value (ip ++ fp) in
              Some (JNum (if neg then Z.opp m else m)
                         (ex - Z.of_nat (List.length fp))%Z, r3)
          end
      end
  end.

(** String body after the opening quote: the decoded contents and the rest
    after the closing quote. *)
Fixpoint parse_str_chars (s : jsstr) : option (jsstr * jsstr) :=
  match s with
  | [] => None
  | 34 :: r => Some ([], r)
  | 92 :: c :: r =>
      let cont (u : jschar) :=
        match parse_str_chars r with
        | Some (d, r') => Some (u :: d, r')
        | None => None
        end in
      if c =? 34 then cont 34
      else if c =? 92 then cont 92
      else if c =? 47 then cont 47
      else if c =? 98 then cont 8
      else if c =? 102 then cont 12
      else if c =? 110 then cont 10
      else if c =? 114 then cont 13
      else if c =? 116 then cont 9
      else if c =? 117 then
        match r with
        | h1 :: h2 :: h3 :: h4 :: r' =>
            match hex_value h1, hex_value h2, hex_value h3, hex_value h4 with
            | Some a, Some b, Some c', Some d =>
                match parse_str_chars r' with
                | Some (t, r'') => Some (((a * 16 + b) * 16 + c') * 16 + d :: t, r'')
                | None => None
                end
            | _, _, _, _ => None
            end
        | _ => None
        end
      else None
  | c :: r =>
      if c <? 32 then None
      else match parse_str_chars r with
           | Some (d, r') => Some (c :: d, r')
           | None => None
           end
  end.

Fixpoint parse_value (n : nat) (s : jsstr) {struct n} : option (json * jsstr) :=
  match n with
  | O => None
  | S n' =>
      match s with
      | 123 :: r =>
          match json_skip_ws r with
          | 125 :: r' => Some (JObj [], r')
          | r' => parse_members n' r' []
          end
      | 91 :: r =>
          match json_skip_ws r with
          | 93 :: r' => Some (JArr [], r')
          | r' => parse_elems n' r' []
          end
      | 34 :: r =>
          match parse_str_chars r with
          | Some (c, r') => Some (JStr c, r')
          | None => None
          end
      | 116 :: 114 :: 117 :: 101 :: r => Some (JBool true, r)
      | 102 :: 97 :: 108 :: 115 :: 101 :: r => Some (JBool false, r)
      | 110 :: 117 :: 108 :: 108 :: r => Some (JNull, r)
      | _ => parse_number s
      end
  end
with parse_elems (n : nat) (s : jsstr) (acc : list json) {struct n}
  : option (json * jsstr) :=
  match n with
  | O => None
  | S n' =>
      match parse_value n' (json_skip_ws s) with
      | Some (v, r) =>
          match json_skip_ws r with
          | 44 :: r' => parse_elems n' r' (acc ++ [v])
          | 93 :: r' => Some (JArr (acc ++ [v]), r')
          | _ => None
          end
      | None => None
      end
  end
with parse_members (n : nat) (s : jsstr) (acc : list (jsstr * json)) {struct n}
  : option (json * jsstr) :=
  match n with
  | O => None
  | S n' =>
      match json_skip_ws s with
      | 34 :: r =>
          match parse_str_chars r with
          | Some (k, r1) =>
              match json_skip_ws r1 with
              | 58 :: r2 =>
                  match parse_value n' (json_skip_ws r2) with
                  | Some (v, r3) =>
                      match json_skip_ws r3 with
                      | 44 :: r4 => parse_members n' r4 (obj_set acc k v)
                      | 125 :: r4 => Some (JObj (obj_set acc k v), r4)
                      | _ => None
                      end
                  | None => None
                  end
              | _ => None
              end
          | None => None
          end
      | _ => None
      end
  end.

(** [JSON.parse s]: [None] when it throws a SyntaxError. Every nested call
    of the parser either consumes a code unit or is followed by one that
    does, so [2 * length s + 2] steps of fuel are never exhausted. *)
Definition JSON_parse (s : jsstr) : option json :=
  match parse_value (2 * List.length s + 2) (json_skip_ws s) with
  | Some (v, r) => match json_skip_ws r with [] => Some v | _ => None end
  | None => None
  end.

(* ------------------------------------------------------------------ *)
(** ** String and regular-expression primitives *)

(** [\s] of a JavaScript regular expression, and the set [trim] removes:
    WhiteSpace and LineTerminator code points. *)
Definition js_ws (c : jschar) : bool :=
  (9 <=? c) && (c <=? 13) || (c =? 32) || (c =? 160) || (c =? 5760)
  || (8192 <=? c) && (c <=? 8202) || (c =? 8232) || (c =? 8233)
  || (c =? 8239) || (c =? 8287) || (c =? 12288) || (c =? 65279).

(** Code units [.] does not match (no [s] flag). *)
Definition line_terminator (c : jschar) : bool :=
  (c =? 10) || (c =? 13) || (c =? 8232) || (c =? 8233).

Fixpoint drop_ws (s : jsstr) : jsstr :=
  match s with
  | c :: r => if js_ws c then drop_ws r else s
  | [] => []
  end.

Fixpoint take_ws (s : jsstr) : jsstr * jsstr :=
  match s with
  | c :: r => if js_ws c then let (w, r') := take_ws r in (c :: w, r')
              else ([], s)
  | [] => ([], [])
  end.

(** [String.prototype.trim]. *)
Definition js_trim (s : jsstr) : jsstr := rev (drop_ws (rev (drop_ws s))).

(** [s.indexOf(c)] for a one-unit needle ([None] for -1). *)
Fixpoint index_of (c : jschar) (s : jsstr) : option nat :=
  match s with
  | [] => None
  | x :: r => if x =? c then Some O
              else match index_of c r with Some i => Some (S i) | None => None end
  end.

(** [s.lastIndexOf(c)] for a one-unit needle. *)
Fixpoint last_index_of (c : jschar) (s : jsstr) : option nat :=
  match s with
  | [] => None
  | x :: r => match last_index_of c r with
              | Some i => Some (S i)
              | None => if x =? c then Some O else None
              end
  end.

(** [s.replace(re, f)] with a global regular expression that never matches
    the empty string. [m] tries the expression at the current position and
    returns the replacement text and the input after the match; on a miss the
    search moves one code unit on. *)
Fixpoint replace_all_fuel (fuel : nat) (m : jsstr -> option (jsstr * jsstr))
    (s : jsstr) : jsstr :=
  match fuel with
  | O => s
  | S f =>
      match s with
      | [] => []
      | c :: r =>
          match m s with
          | Some (rep, rest) => rep ++ replace_all_fuel f m rest
          | None => c :: replace_all_fuel f m r
          end
      end
  end.

Definition replace_all (m : jsstr -> option (jsstr * jsstr)) (s : jsstr) : jsstr :=
  replace_all_fuel (S (List.length s)) m s.

(** [s.replace(re, f)] without the [g] flag: the first match only. *)
Fixpoint replace_first (m : jsstr -> option (jsstr * jsstr)) (s : jsstr) : jsstr :=
  match s with
  | [] => []
  | c :: r =>
      match m s with
      | Some (rep, rest) => rep ++ rest
      | None => c :: replace_first m r
      end
  end.

(* ------------------------------------------------------------------ *)
(** ** [tryParseJsonWithRepairs] and [extractFirstJsonObj]
    (src/unnamed/part_002 lines 115-216, identical in part_003 lines 36-113).
    Both return a JavaScript value; their [null] is [JNull]. *)

(** Single smart quotes U+2018, U+2019, U+201A, U+201B, U+2032 become an
    apostrophe (first [replace] of the normalisation). *)
Definition norm_single_quote (c : jschar) : jschar :=
  if (c =? 8216) || (c =? 8217) || (c =? 8218) || (c =? 8219) || (c =? 8242)
  then 39 else c.

(** Double smart quotes U+201C, U+201D, U+201E, U+201F, U+2033 become a
    double quote (second [replace]). *)
Definition norm_double_quote (c : jschar) : jschar :=
  if (c =? 8220) || (c =? 8221) || (c =? 8222) || (c =? 8223) || (c =? 8243)
  then 34 else c.

(** A no-break space U+00A0 becomes a space (third [replace]). *)
Definition norm_nbsp (c : jschar) : jschar := if c =? 160 then 32 else c.

(** Trailing-comma repair: a comma, then [\s] repeated, followed by a closing
    brace or bracket (lookahead, not consumed), is deleted. *)
Definition re_trailing_comma (s : jsstr) : option (jsstr * jsstr) :=
  match s with
  | 44 :: r =>
      match drop_ws r with
      | (c :: _) as rest => if (c =? 125) || (c =? 93) then Some ([], rest) else None
      | [] => None
      end
  | _ => None
  end.

(** Body of the single-quoted-string expression (an apostrophe, then runs of
    code units other than apostrophe and backslash, each backslash taking the
    next code unit unless it is a line terminator, then an apostrophe):
    group 1 and the input after the
    closing quote. *)
Fixpoint single_quoted_body (s : jsstr) : option (jsstr * jsstr) :=
  match s with
  | [] => None
  | 39 :: r => Some ([], r)
  | 92 :: c :: r =>
      if line_terminator c then None
      else match single_quoted_body r with
           | Some (b, r') => Some (92 :: c :: b, r')
           | None => None
           end
  | 92 :: [] => None
  | c :: r =>
      match single_quoted_body r with
      | Some (b, r') => Some (c :: b, r')
      | None => None
      end
  end.

(** Each double quote of group 1 gets a backslash before it. *)
Definition escape_dquotes (p : jsstr) : jsstr :=
  flat_map (fun c => if c =? 34 then [92; 34] else [c]) p.

(** Single-to-double quote repair: the matched string is replaced by its
    escaped group 1 between double quotes. *)
Definition re_single_quoted (s : jsstr) : option (jsstr * jsstr) :=
  match s with
  | 39 :: r =>
      match single_quoted_body r with
      | Some (p1, rest) => Some (34 :: escape_dquotes p1 ++ [34], rest)
      | None => None
      end
  | _ => None
  end.

(** Key code units: ASCII letters, digits, underscore, at-sign, dollar and
    hyphen. *)
Definition key_char (c : jschar) : bool :=
  (65 <=? c) && (c <=? 90) || (97 <=? c) && (c <=? 122)
  || (48 <=? c) && (c <=? 57) || (c =? 95) || (c =? 64) || (c =? 36) || (c =? 45).

Fixpoint take_key (s : jsstr) : jsstr * jsstr :=
  match s with
  | c :: r => if key_char c then let (k, r') := take_key r in (c :: k, r')
              else ([], s)
  | [] => ([], [])
  end.

(** Unquoted-key repair: an opening brace or comma, [\s] repeated (group 1),
    one or more key code units (group 2), [\s] repeated and a colon become
    group 1, the key between double quotes, and a colon. *)
Definition re_unquoted_key (s : jsstr) : option (jsstr * jsstr) :=
  match s with
  | c :: r =>
      if (c =? 123) || (c =? 44) then
        let (w, r1) := take_ws r in
        match take_key r1 with
        | ([], _) => None
        | (k, r2) =>
            match drop_ws r2 with
            | 58 :: rest => Some (c :: w ++ [34] ++ k ++ [34; 58], rest)
            | _ => None
            end
        end
      else None
  | [] => None
  end.

Definition tryParseJsonWithRepairs (candidate : jsstr) : json :=
  match candidate with
  | [] => JNull
  | _ =>
      let s := js_trim (map norm_nbsp (map norm_double_quote
                                         (map norm_single_quote candidate))) in
      match JSON_parse s with
      | Some v => v
      | None =>
          let s := replace_all re_trailing_comma s in
          let s := replace_all re_single_quoted s in
          let s := replace_all re_unquoted_key s in
          match JSON_parse s with
          | Some v => v
          | None => JNull
          end
      end
  end.

(** The greedy brace match of the fallback: from the first [{] to the last [}] after
    it. *)
Definition brace_span (s : jsstr) : option jsstr :=
  match index_of 123 s with
  | None => None
  | Some i =>
      let t := skipn i s in
      match last_index_of 125 t with
      | Some j => Some (firstn (S j) t)
      | None => None
      end
  end.

(** The scanning loop from [firstOpen]: [rev seen] is [text.slice(firstOpen, i)].
    [Some v] is a [return v] from inside the loop, [None] that the loop ran
    to the end of the text. *)
Fixpoint scan_objects (t seen : jsstr) (inString escape : bool) (depth : Z)
  : option json :=
  match t with
  | [] => None
  | ch :: r =>
      let seen' := ch :: seen in
      if escape then scan_objects r seen' inString false depth
      else if ch =? 92 then scan_objects r seen' inString true depth
      else if ch =? 34 then scan_objects r seen' (negb inString) escape depth
      else if negb inString then
        if ch =? 123 then scan_objects r seen' inString escape (depth + 1)
        else if ch =? 125 then
          let depth' := (depth - 1)%Z in
          if Z.eqb depth' 0 then
            let candidate := rev seen' in
            match JSON_parse candidate with
            | Some v => Some v
            | None =>
                let repaired := tryParseJsonWithRepairs candidate in
                if js_truthy repaired then Some repaired
                else scan_objects r seen' inString escape depth'
            end
          else scan_objects r seen' inString escape depth'
        else scan_objects r seen' inString escape depth
      else scan_objects r seen' inString escape depth
  end.

Definition extractFirstJsonObj (text : jsstr) : json :=
  match text with
  | [] => JNull
  | _ =>
      match index_of 123 text with
      | None =>
          match brace_span text with
          | Some m => tryParseJsonWithRepairs m
          | None => JNull
          end
      | Some firstOpen =>
          match scan_objects (skipn firstOpen text) [] false false 0 with
          | Some v => v
          | None =>
              match brace_span text with
              | Some ((_ :: _) as m) => tryParseJsonWithRepairs m
              | _ => JNull
              end
          end
      end
  end.

(* ------------------------------------------------------------------ *)
(** ** Exceptions and property access *)

(** A computation that may throw a JavaScript exception. *)
Inductive res (A : Type) : Type :=
| Ok (a : A)
| Throw (e : json).
Arguments Ok {A} a.
Arguments Throw {A} e.

Notation "x <- m ;; k" :=
  (match m with Ok x => k | Throw e => Throw e end)
  (at level 61, m at next level, right associativity).

Definition type_error : json := JStr (js "TypeError").

(** A property read on a value that is neither [null] nor [undefined]: only
    objects carry the properties read below. *)
Definition get_prop (x : json) (k : jsstr) : option json :=
  match x with
  | JObj kvs => obj_lookup kvs k
  | _ => None
  end.

(** [x.k]: throws on [null] and [undefined]. *)
Definition prop (x : option json) (k : jsstr) : res (option json) :=
  match x with
  | None | Some JNull => Throw type_error
  | Some v => Ok (get_prop v k)
  end.

(** [x?.k] *)
Definition opt_prop (x : option json) (k : jsstr) : option json :=
  match x with
  | None | Some JNull => None
  | Some v => get_prop v k
  end.

(** [a ?? b]: [b] when [a] is [null] or [undefined]. *)
Definition coalesce (a b : option json) : option json :=
  match a with
  | None | Some JNull => b
  | Some v => Some v
  end.

(** [a || b] *)
Definition js_or (a : option json) (b : json) : json :=
  match a with
  | Some v => if js_truthy v then v else b
  | None => b
  end.

(** [a === b] for a string [b]. *)
Definition str_eq (a : option json) (b : jsstr) : bool :=
  match a with
  | Some (JStr s) => jsstr_eqb s b
  | _ => false
  end.

(** [xs.map(f)]: throws unless [xs] is an array. *)
Fixpoint res_map (f : json -> res json) (l : list json) : res (list json) :=
  match l with
  | [] => Ok []
  | x :: r => y <- f x ;; ys <- res_map f r ;; Ok (y :: ys)
  end.

Definition js_map (xs : json) (f : json -> res json) : res (list json) :=
  match xs with
  | JArr l => res_map f l
  | _ => Throw type_error
  end.

Definition jnat (n : nat) : json := JNum (Z.of_nat n) 0.

(* ------------------------------------------------------------------ *)
(** ** The margin pipeline orchestrator
    (src/components/margin-loader-sequence.tsx) *)

Record margin_step := { step_id : jsstr; step_endpoint : jsstr }.

Definition MARGIN_STEPS : list margin_step :=
  [ {| step_id := js "pricing"; step_endpoint := js "/api/margin/pricing" |};
    {| step_id := js "costs"; step_endpoint := js "/api/margin/costs" |};
    {| step_id := js "leakage"; step_endpoint := js "/api/margin/leakage" |};
    {| step_id := js "segments"; step_endpoint := js "/api/margin/segments" |};
    {| step_id := js "recommendations";
       step_endpoint := js "/api/margin/recommendations" |} ].

Inductive step_status := Pending | Loading | Success | Error.

Record StepResult := {
  sr_status : step_status;
  sr_data : option json;
  sr_error : option json }.

Definition sr (s : step_status) : StepResult :=
  {| sr_status := s; sr_data := None; sr_error := None |}.

(** The component's props. [runId] is optional. *)
Record loader_props := { p_fileId : jsstr; p_runId : option jsstr }.

(** The component's state: [stepResults] (a record keyed by the distinct
    step ids, kept here in step order), the accumulator [accumRef.current]
    and [currentStep]. *)
Record loader_state := {
  stepResults : list StepResult;
  accum : list (jsstr * json);
  currentStep : nat }.

(** A response of [fetch]; [None] when the request rejects (network error or
    abort). [resp_text] is what [response.text().catch(() => "")] yields. *)
Record http_response := { resp_ok : bool; resp_status : Z; resp_text : jsstr }.

(** What the component sends: a step request, the save request, and the two
    ends of [finalizeAndReturn] (the [onComplete] call, or a rejection). *)
Inductive event :=
| StepFetch (endpoint : jsstr) (body : json)
| SaveFetch (body : json)
| Complete (final : json)
| FinalizeThrew (e : json).

Fixpoint upd_nth {A : Type} (l : list A) (i : nat) (x : A) : list A :=
  match l, i with
  | [], _ => []
  | _ :: r, O => x :: r
  | y :: r, S i' => y :: upd_nth r i' x
  end.

Definition set_status (st : loader_state) (i : nat) (r : StepResult)
  : loader_state :=
  {| stepResults := upd_nth (stepResults st) i r; accum := accum st;
     currentStep := currentStep st |}.

Definition jstrs (l : list string) : json := JArr (map (fun s => JStr (js s)) l).

(** The leakage rules the leakage step sends (and the leakage route's
    default). *)
Definition leakage_rules_default : list string :=
  ["net_price < cost"; "margin_pct < 5"; "discount_pct > 50"]%string.

(** [bodyPayload] of [runStep]; [JSON.stringify] drops an undefined
    [runId]. *)
Definition step_payload (p : loader_props) (step : margin_step) : json :=
  let base := [(js "fileId", JStr (p_fileId p))]
              ++ match p_runId p with
                 | Some r => [(js "runId", JStr r)]
                 | None => []
                 end in
  let id := step_id step in
  let extra :=
    if jsstr_eqb id (js "pricing") then
      [(js "analyze_fields", jstrs ["list_price"; "net_price"; "discount_pct"]%string);
       (js "price_thresholds",
         JObj [(js "min_price", JNum 0 0); (js "max_discount", JNum 100 0)])]
    else if jsstr_eqb id (js "costs") then
      [(js "cost_fields", jstrs ["cost"; "cogs"]%string);
       (js "margin_thresholds",
         JObj [(js "min_margin_pct", JNum 10 0); (js "target_margin_pct", JNum 30 0)])]
    else if jsstr_eqb id (js "leakage") then
      [(js "leakage_rules",
         jstrs leakage_rules_default);
       (js "priority_threshold", JNum 1000 0)]
    else if jsstr_eqb id (js "segments") then
      [(js "segment_fields",
         jstrs ["customer_id"; "customer_segment"; "product_category"]%string);
       (js "analysis_type", JStr (js "margin_by_segment"))]
    else if jsstr_eqb id (js "recommendations") then
      [(js "recommendation_types",
         jstrs ["pricing_optimization"; "cost_reduction"; "segment_targeting"]%string)]
    else [] in
  JObj (base ++ extra).

Definition step_request (p : loader_props) (step : margin_step) : event :=
  StepFetch (step_endpoint step) (step_payload p step).

(** [result] of [runStep]: the parsed body, [{}] for an empty body and
    [{ rawText: text }] when it does not parse. *)
Definition response_result (resp : http_response) : json :=
  let text := resp_text resp in
  match text with
  | [] => JObj []
  | _ => match JSON_parse text with
         | Some v => v
         | None => JObj [(js "rawText", JStr text)]
         end
  end.

(** The [try] block of [runStep] after the request: [inl msg] when it throws
    (rejected fetch, non-ok status, or the summary's property read on a
    [null] result), [inr result] otherwise. *)
Definition step_outcome (r : option http_response) : json + json :=
  match r with
  | None => inl (JStr (js "fetch failed"))
  | Some resp =>
      let result := response_result resp in
      if negb (resp_ok resp) then
        inl (js_or (opt_prop (Some result) (js "error"))
               (js_or (opt_prop (Some result) (js "message"))
                  (JStr (js "HTTP " ++ js (NilEmpty.string_of_int
                                              (Z.to_int (resp_status resp)))))))
      else match result with
           | JNull => inl type_error
           | _ => inr result
           end
  end.

(** [accumRef.current[step.id] = result] runs once the status is ok, before
    the summary is built (which throws on a [null] result). *)
Definition step_stored (r : option http_response) : option json :=
  match r with
  | Some resp => if resp_ok resp then Some (response_result resp) else None
  | None => None
  end.

Definition dflt (o : option json) (d : json) : json :=
  match o with Some v => v | None => d end.

(** One entry of [priorityActions.map(...)]. *)
Definition suggestion_of_action (action : json) : res json :=
  let a := Some action in
  category <- prop a (js "category") ;;
  act <- prop a (js "action") ;;
  rationale <- prop a (js "rationale") ;;
  impact <- prop a (js "impact") ;;
  priority <- prop a (js "priority") ;;
  Ok (JObj [(js "type", js_or category (js_or act (JStr (js "Optimization"))));
            (js "description", js_or act (js_or rationale (JStr [])));
            (js "impact_estimate", js_or impact (JStr (js "Unknown impact")));
            (js "confidence",
              if str_eq priority (js "high") then JNum 9 (-1)
              else if str_eq priority (js "medium") then JNum 7 (-1)
              else JNum 5 (-1));
            (js "rationale", js_or rationale (JStr []));
            (js "priority", js_or priority (JStr (js "medium")))]).

(** One entry of [quickWins.map(...)]. *)
Definition suggestion_of_win (win : json) : res json :=
  let w := Some win in
  act <- prop w (js "action") ;;
  impact <- prop w (js "impact") ;;
  effort <- prop w (js "effort") ;;
  Ok (JObj [(js "type", JStr (js "Quick Win"));
            (js "description", js_or act (JStr []));
            (js "impact_estimate", js_or impact (JStr (js "Unknown impact")));
            (js "confidence", JNum 8 (-1));
            (js "effort", js_or effort (JStr (js "low")));
            (js "priority", JStr (js "high"))]).

(** [xs.filter((a) => a.priority === pr).length] *)
Definition count_priority (xs : json) (pr : jsstr) : res nat :=
  match xs with
  | JArr l =>
      (fix go (l : list json) : res nat :=
         match l with
         | [] => Ok O
         | a :: r => p <- prop (Some a) (js "priority") ;; n <- go r ;;
                     Ok (if str_eq p pr then S n else n)
         end) l
  | _ => Throw type_error
  end.

(** [quickWins.length]; [quickWins.map] has already succeeded, so it is an
    array here. *)
Definition array_length (xs : json) : res nat :=
  match xs with
  | JArr l => Ok (List.length l)
  | _ => Throw type_error
  end.

(** [acc.k] on the accumulator. *)
Definition acc_get (acc : list (jsstr * json)) (k : string) : option json :=
  obj_lookup acc (js k).

(** [finalResults] of [finalizeAndReturn], built from [accumRef.current]. *)
Definition final_results (p : loader_props) (now : jsstr) (st : loader_state)
  : res json :=
  let acc := accum st in
  let recommendationsData :=
    dflt (coalesce (acc_get acc "recommendations") None) (JObj []) in
  let priorityActions :=
    dflt (coalesce (get_prop recommendationsData (js "priority_actions")) None)
      (JArr []) in
  let quickWins :=
    dflt (coalesce (get_prop recommendationsData (js "quick_wins")) None)
      (JArr []) in
  pa <- js_map priorityActions suggestion_of_action ;;
  qw <- js_map quickWins suggestion_of_win ;;
  severity <-
    match coalesce (get_prop recommendationsData (js "severity_summary"))
            (coalesce (opt_prop (acc_get acc "segments") (js "severity_summary"))
               (opt_prop (acc_get acc "leakage") (js "severity_summary"))) with
    | Some v => Ok v
    | None =>
        critical <- count_priority priorityActions (js "critical") ;;
        high <- count_priority priorityActions (js "high") ;;
        nqw <- array_length quickWins ;;
        medium <- count_priority priorityActions (js "medium") ;;
        low <- count_priority priorityActions (js "low") ;;
        Ok (JObj [(js "critical", jnat critical); (js "high", jnat (high + nqw));
                  (js "medium", jnat medium); (js "low", jnat low)])
    end ;;
  Ok (JObj
    [(js "pricing",
       dflt (coalesce (acc_get acc "pricing") (coalesce (acc_get acc "pricing_raw") (acc_get acc "pricingResults")))
         (JObj []));
     (js "costs", dflt (coalesce (acc_get acc "costs") (acc_get acc "costs_raw")) (JObj []));
     (js "leakage", dflt (coalesce (acc_get acc "leakage") (acc_get acc "leakage_raw")) (JObj []));
     (js "segments", dflt (coalesce (acc_get acc "segments") (acc_get acc "segments_raw")) (JObj []));
     (js "recommendations",
       dflt (coalesce (acc_get acc "recommendations") (acc_get acc "recommendations_raw")) (JObj []));
     (js "top_product_losses",
       dflt (coalesce (opt_prop (acc_get acc "recommendations") (js "top_product_losses"))
               (coalesce (opt_prop (acc_get acc "leakage") (js "top_product_losses"))
                  (opt_prop (acc_get acc "pricing") (js "top_product_losses")))) (JArr []));
     (js "top_customer_losses",
       dflt (opt_prop (acc_get acc "leakage") (js "top_customer_losses")) (JArr []));
     (js "product_customer_pairs_below_cost",
       dflt (coalesce (opt_prop (acc_get acc "leakage") (js "product_customer_pairs_below_cost"))
               None) (JArr []));
     (js "samples",
       dflt (coalesce (acc_get acc "samples")
               (coalesce (opt_prop (acc_get acc "pricing") (js "samples"))
                  (opt_prop (acc_get acc "leakage") (js "samples"))))
         (JObj [(js "below_cost", JArr []); (js "low_margin", JArr []);
                (js "extreme_discount", JArr [])]));
     (js "remediation_suggestions", JArr (pa ++ qw));
     (js "severity_summary", severity);
     (js "sql_queries",
       JObj [(js "below_cost",
               dflt (coalesce (opt_prop (acc_get acc "leakage") (js "sql"))
                       (coalesce (opt_prop (acc_get acc "pricing") (js "sql"))
                          (opt_prop (acc_get acc "segments") (js "sql")))) (JStr []));
             (js "low_margin", dflt (opt_prop (acc_get acc "pricing") (js "sql")) (JStr []));
             (js "customer_level", dflt (opt_prop (acc_get acc "segments") (js "sql")) (JStr []))]);
     (js "meta",
       JObj ([(js "fileId", JStr (p_fileId p))]
             ++ match p_runId p with Some r => [(js "runId", JStr r)] | None => [] end
             ++ [(js "completedAt", JStr now);
                 (js "analysis_type", JStr (js "margin_leakage"))]))]).

(** [if (runId)] *)
Definition runId_truthy (p : loader_props) : bool :=
  match p_runId p with Some (_ :: _) => true | _ => false end.

Definition runId_value (p : loader_props) : jsstr :=
  match p_runId p with Some r => r | None => [] end.

(** [JSON.stringify({ runId, analysis: finalResults })] *)
Definition save_body (p : loader_props) (fr : json) : json :=
  JObj [(js "runId", JStr (runId_value p)); (js "analysis", fr)].

(** [finalizeAndReturn]: the save request is sent only under [if (runId)];
    its failure is only logged. *)
Definition finalizeAndReturn (p : loader_props) (now : jsstr) (st : loader_state)
  : list event :=
  match final_results p now st with
  | Throw e => [FinalizeThrew e]
  | Ok fr =>
      (if runId_truthy p then [SaveFetch (save_body p fr)]
       else [])
      ++ [Complete fr]
  end.

(** [runStep(stepIndex)] and the chain of [setTimeout(() => runStep(i + 1))]
    it starts, consuming one response per request from [rs]. [n] counts the
    steps left, [length MARGIN_STEPS - i]. When [rs] runs out the request is
    still pending and nothing further happens. The result is the final state,
    the events in order, and the unused responses. *)
Fixpoint run_steps (p : loader_props) (now : jsstr) (n i : nat)
    (st : loader_state) (rs : list (option http_response))
  : loader_state * list event * list (option http_response) :=
  match n with
  | O => (st, finalizeAndReturn p now st, rs)
  | S n' =>
      match nth_error MARGIN_STEPS i with
      | None => (st, finalizeAndReturn p now st, rs)
      | Some step =>
          let st1 := {| stepResults := upd_nth (stepResults st) i (sr Loading);
                        accum := accum st; currentStep := i |} in
          let ev := step_request p step in
          match rs with
          | [] => (st1, [ev], [])
          | r :: rs' =>
              match step_outcome r with
              | inl msg =>
                  let acc1 := match step_stored r with
                              | Some v => obj_set (accum st1) (step_id step) v
                              | None => accum st1
                              end in
                  (set_status {| stepResults := stepResults st1; accum := acc1;
                                 currentStep := i |}
                     i {| sr_status := Error; sr_data := None;
                          sr_error := Some msg |}, [ev], rs')
              | inr result =>
                  let st2 :=
                    {| stepResults := upd_nth (stepResults st1) i
                                        {| sr_status := Success;
                                           sr_data := Some result;
                                           sr_error := None |};
                       accum := obj_set (accum st1) (step_id step) result;
                       currentStep := i |} in
                  let '(st3, evs, rs'') := run_steps p now n' (S i) st2 rs' in
                  (st3, ev :: evs, rs'')
              end
          end
      end
  end.

Definition runStep (p : loader_props) (now : jsstr) (i : nat) (st : loader_state)
    (rs : list (option http_response))
  : loader_state * list event * list (option http_response) :=
  run_steps p now (List.length MARGIN_STEPS - i) i st rs.

(** The mount effect: every step pending, an empty accumulator, then
    [runStep(0)]. *)
Definition init_state : loader_state :=
  {| stepResults := map (fun _ => sr Pending) MARGIN_STEPS; accum := [];
     currentStep := 0 |}.

Definition start_run (p : loader_props) (now : jsstr)
    (rs : list (option http_response))
  : loader_state * list event * list (option http_response) :=
  runStep p now 0 init_state rs.

(** [MARGIN_STEPS.findIndex((step) => stepResults[step.id]?.status === "error")] *)
Fixpoint first_error (l : list StepResult) : option nat :=
  match l with
  | [] => None
  | r :: l' =>
      match sr_status r with
      | Error => Some O
      | _ => option_map S (first_error l')
      end
  end.

(** [handleRetry]: the failed step is reset to pending and run again. *)
Definition handleRetry (p : loader_props) (now : jsstr) (st : loader_state)
    (rs : list (option http_response))
  : loader_state * list event * list (option http_response) :=
  match first_error (stepResults st) with
  | None => (st, [], rs)
  | Some f => runStep p now f (set_status st f (sr Pending)) rs
  end.

(** States the component can be in: after the mount run, or after a retry
    from such a state. *)
Inductive reachable (p : loader_props) : loader_state -> Prop :=
| reach_start : forall now rs,
    reachable p (fst (fst (start_run p now rs)))
| reach_retry : forall st now rs,
    reachable p st -> reachable p (fst (fst (handleRetry p now st rs))).

(** Whether a response lets its step succeed. *)
Definition step_succeeds (r : option http_response) : bool :=
  match step_outcome r with inr _ => true | inl _ => false end.

(** Number of leading responses that let their steps succeed. *)
Fixpoint ok_prefix (rs : list (option http_response)) : nat :=
  match rs with
  | [] => O
  | r :: rs' => if step_succeeds r then S (ok_prefix rs') else O
  end.

Local Open Scope nat_scope.

(** Whether an event is a step request. *)
Definition is_step_fetch (e : event) : bool :=
  match e with StepFetch _ _ => true | _ => false end.

(** Status of the step at index [j] in a state. *)
Definition stat (st : loader_state) (j : nat) : option step_status :=
  option_map sr_status (nth_error (stepResults st) j).

(** Shape of the statuses when a run starts at step [i]: the steps before
    [i] have succeeded and the others are pending. *)
Definition run_ready (i : nat) (st : loader_state) : Prop :=
  List.length (stepResults st) = List.length MARGIN_STEPS
  /\ (forall j, j < i -> stat st j = Some Success)
  /\ (forall j, i <= j < List.length MARGIN_STEPS -> stat st j = Some Pending).

(** Shape of the statuses between runs: a prefix of succeeded steps, then at
    most one step that has not succeeded (loading or failed), then pending
    steps. *)
Definition loader_inv (st : loader_state) : Prop :=
  exists k, k <= List.length MARGIN_STEPS
  /\ List.length (stepResults st) = List.length MARGIN_STEPS
  /\ (forall j, j < k -> stat st j = Some Success)
  /\ (forall j, k < j < List.length MARGIN_STEPS -> stat st j = Some Pending)
  /\ (k < List.length MARGIN_STEPS -> stat st k <> Some Success).

Close Scope nat_scope.

(** Sample inputs: a run on file "f" without a run id, an ok response with a
    small JSON body, and the state after the pricing step succeeded and the
    costs request was rejected. *)
Definition ex_props : loader_props := {| p_fileId := js "f"; p_runId := None |}.

Definition ex_ok_response : http_response :=
  {| resp_ok := true; resp_status := 200%Z; resp_text := jq "{~ok~:1}" |}.

Definition ex_failed_state : loader_state :=
  fst (fst (start_run ex_props (js "t") [Some ex_ok_response; None])).

(* ------------------------------------------------------------------ *)
(** ** [POST /api/margin-report/save] *)

(** How MongoDB matches an equality filter [{ field: s }] with a string [s]
    against a document's field ([None] when the field is absent): the field
    is the string [s], or an array among whose elements is the string [s]. *)
Definition str_filter_match (s : jsstr) (f : option json) : bool :=
  match f with
  | Some (JStr t) => jsstr_eqb t s
  | Some (JArr l) =>
      existsb (fun x => match x with JStr t => jsstr_eqb t s | _ => false end) l
  | _ => false
  end.

(** A document of the [margin_analyses] collection, with the fields the
    save route writes; [ma_runId] is [None] for a document inserted by an
    upsert whose [runId] filter value is a query operator. The [userId] is
    the string of [getAuth] in every document the repository writes. *)
Record margin_analysis_doc := {
  ma_runId : option json;
  ma_userId : jsstr;
  ma_analysis : json;
  ma_status : jsstr;
  ma_completedAt : jsstr;
  ma_updatedAt : jsstr }.

Section SaveFilter.

(** The body's [runId] is any JSON value. How MongoDB matches a filter value
    that is not a string (a number, a boolean, an array, an object, which
    may be a query operator such as [{ $ne: ... }]) against a stored
    [runId], and which [runId] an upsert inserts for it (the value itself
    for an equality, none for an operator), are left open. *)
Variable runId_match : json -> option json -> bool.
Variable runId_seed : json -> option json.

Definition runId_filter (v : json) (f : option json) : bool :=
  match v with
  | JStr s => str_filter_match s f
  | _ => runId_match v f
  end.

(** [updateOne({ runId, userId }, { $set: {...} }, { upsert: true })]: the
    first matching document is updated, otherwise one is inserted from the
    filter's equality fields and the [$set]. *)
Fixpoint upsert_analysis (db : list margin_analysis_doc) (runId : json)
    (userId : jsstr) (analysis : json) (now : jsstr) : list margin_analysis_doc :=
  match db with
  | [] => [{| ma_runId := match runId with
                          | JStr s => Some (JStr s)
                          | _ => runId_seed runId
                          end;
              ma_userId := userId; ma_analysis := analysis;
              ma_status := js "completed"; ma_completedAt := now;
              ma_updatedAt := now |}]
  | d :: r =>
      if runId_filter runId (ma_runId d) && jsstr_eqb (ma_userId d) userId then
        {| ma_runId := ma_runId d; ma_userId := ma_userId d; ma_analysis := analysis;
           ma_status := js "completed"; ma_completedAt := now;
           ma_updatedAt := now |} :: r
      else d :: upsert_analysis r runId userId analysis now
  end.

(** The handler: [clerkUserId] from [getAuth], the body ([None] when
    [request.json()] rejects), the time, and the collection; the database
    connection is taken to succeed. Returns the status, the response body and
    the collection after the request. *)
Definition save_post (clerkUserId : option jsstr) (body : option json)
    (now : jsstr) (db : list margin_analysis_doc)
  : Z * json * list margin_analysis_doc :=
  let internal := JObj [(js "error", JStr (js "Internal server error"))] in
  match clerkUserId with
  | None | Some [] =>
      (401%Z, JObj [(js "error", JStr (js "Authentication required"))], db)
  | Some uid =>
      match body with
      | None => (500%Z, internal, db)
      | Some b =>
          match prop (Some b) (js "runId"), prop (Some b) (js "analysis") with
          | Ok (Some runId), Ok (Some analysis) =>
              if js_truthy runId && js_truthy analysis then
                (200%Z, JObj [(js "success", JBool true)],
                 upsert_analysis db runId uid analysis now)
              else
                (400%Z, JObj [(js "error", JStr (js "runId and analysis are required"))], db)
          | Ok _, Ok _ =>
              (400%Z, JObj [(js "error", JStr (js "runId and analysis are required"))], db)
          | _, _ => (500%Z, internal, db)
          end
      end
  end.

End SaveFilter.

(** [findOne({ runId, userId })] of the report [GET], with the URL's string
    [runId]. *)
Fixpoint find_analysis (db : list margin_analysis_doc) (runId : jsstr)
    (userId : jsstr) : option margin_analysis_doc :=
  match db with
  | [] => None
  | d :: r =>
      if str_filter_match runId (ma_runId d) && jsstr_eqb (ma_userId d) userId
      then Some d
      else find_analysis r runId userId
  end.

(** A run with a run id, whose five steps succeed and whose recommendations
    reply carries [priority_actions: "none"]. *)
Definition ex_props_run : loader_props :=
  {| p_fileId := js "f"; p_runId := Some (js "r1") |}.

Definition ex_reco_response : http_response :=
  {| resp_ok := true; resp_status := 200%Z;
     resp_text := jq "{~priority_actions~:~none~}" |}.

Definition ex_bad_reco_run : list (option http_response) :=
  repeat (Some ex_ok_response) 4 ++ [Some ex_reco_response].

Definition ex_all_ok : list (option http_response) :=
  repeat (Some ex_ok_response) 5.

(* ------------------------------------------------------------------ *)
(** ** Upload, session and combine routes *)

(** A file of the [excelFiles] GridFS bucket with the metadata the routes
    write; [f_isCombined = false] and [f_sourceFileIds = None] stand for the
    absent fields of an uploaded file. Times are milliseconds. *)
Record file_doc := {
  f_id : jsstr;
  f_filename : jsstr;
  f_userId : jsstr;
  f_sessionId : jsstr;
  f_uploadedAt : Z;
  f_isCombined : bool;
  f_sourceFileIds : option jsstr }.

Definition ascii_lower (c : jschar) : jschar :=
  if (65 <=? c) && (c <=? 90) then c + 32 else c.

(** [s] ends with [suf], ignoring ASCII case. *)
Definition ends_with_ci (s suf : jsstr) : bool :=
  let n := List.length s in
  let m := List.length suf in
  Nat.leb m n && jsstr_eqb (map ascii_lower (skipn (n - m) s)) (map ascii_lower suf).

(** [file.name.match(/\.(xlsx|xls|csv)$/i)] *)
Definition valid_extension (name : jsstr) : bool :=
  ends_with_ci name (js ".xlsx") || ends_with_ci name (js ".xls")
  || ends_with_ci name (js ".csv").

(** The form's [file] field ([formData.get('file')]): a file, with its
    name, or a plain string. *)
Inductive form_file := FormFile (name : jsstr) | FormString (s : jsstr).

(** [POST /api/upload] up to the store: the user, the form's [file] field,
    its [sessionId] field (a string; a file sent in that field is not
    modelled), the time, the id GridFS assigns, and the bucket; the
    environment and the database are taken to work. Returns the status and
    the bucket after the request. A string in the [file] field has no
    [name]: [file.name.match] throws and the route answers 500. *)
Definition upload_post (userId : option jsstr) (file : option form_file)
    (sessionId : option jsstr) (now : Z) (fresh : jsstr) (db : list file_doc)
  : Z * list file_doc :=
  match userId with
  | None | Some [] => (401%Z, db)
  | Some uid =>
      match file with
      | None | Some (FormString []) => (400%Z, db)
      | Some f =>
          match sessionId with
          | None | Some [] => (400%Z, db)
          | Some sid =>
              match f with
              | FormString _ => (500%Z, db)
              | FormFile name =>
                  if negb (valid_extension name) then (400%Z, db)
                  else (200%Z, db ++ [{| f_id := fresh; f_filename := name;
                                         f_userId := uid; f_sessionId := sid;
                                         f_uploadedAt := now; f_isCombined := false;
                                         f_sourceFileIds := None |}])
              end
          end
      end
  end.

(** [a <= b] on strings, by UTF-16 code units ([Array.prototype.sort]'s
    default order). *)
Fixpoint jsstr_leb (a b : jsstr) : bool :=
  match a, b with
  | [], _ => true
  | _ :: _, [] => false
  | x :: a', y :: b' => (x <? y) || ((x =? y) && jsstr_leb a' b')
  end.

Fixpoint insert_sorted (x : jsstr) (l : list jsstr) : list jsstr :=
  match l with
  | [] => [x]
  | y :: r => if jsstr_leb x y then x :: l else y :: insert_sorted x r
  end.

Definition sort_strings (l : list jsstr) : list jsstr :=
  fold_right insert_sorted [] l.

Fixpoint join_comma (l : list jsstr) : jsstr :=
  match l with
  | [] => []
  | [x] => x
  | x :: r => x ++ js "," ++ join_comma r
  end.

(** Insertion by [metadata.uploadedAt], latest first; a file goes before
    the first one uploaded at the same time or earlier. *)
Fixpoint insert_by_time (f : file_doc) (l : list file_doc) : list file_doc :=
  match l with
  | [] => [f]
  | g :: r => if Z.leb (f_uploadedAt g) (f_uploadedAt f) then f :: l
              else g :: insert_by_time f r
  end.

(** [.sort({ 'metadata.uploadedAt': -1 })]. MongoDB leaves the order of
    files uploaded at the same millisecond unspecified; here they keep the
    collection's order. *)
Definition sort_by_time_desc (l : list file_doc) : list file_doc :=
  fold_right insert_by_time [] l.

(** [find({ 'metadata.userId': userId, 'metadata.sessionId': sessionId,
    'metadata.uploadedAt': { $lte: requestStartTime } })
    .sort({ 'metadata.uploadedAt': -1 })], for a string [sessionId]; the
    files' [userId] and [sessionId] are the strings the routes store. *)
Definition recent_files (db : list file_doc) (uid sid : jsstr) (t : Z)
  : list file_doc :=
  sort_by_time_desc
    (filter (fun f => jsstr_eqb (f_userId f) uid && jsstr_eqb (f_sessionId f) sid
                      && Z.leb (f_uploadedAt f) t) db).

(** [recentFiles.map(f => f._id.toString()).sort().join(',')] *)
Definition source_ids (files : list file_doc) : jsstr :=
  join_comma (sort_strings (map f_id files)).

(** [findOne({ userId, sessionId, sourceFileIds: fileIds, isCombined: true })] *)
Fixpoint find_combined (db : list file_doc) (uid sid ids : jsstr)
  : option file_doc :=
  match db with
  | [] => None
  | f :: r =>
      if jsstr_eqb (f_userId f) uid && jsstr_eqb (f_sessionId f) sid
         && match f_sourceFileIds f with Some s => jsstr_eqb s ids | None => false end
         && f_isCombined f
      then Some f else find_combined r uid sid ids
  end.

(** A document of the [sessionMetadata] collection (a JSON object). *)
Definition session_doc := list (jsstr * json).

Definition index_key (i : nat) : jsstr := js (NilEmpty.string_of_uint (Nat.to_uint i)).

Fixpoint indexed {A : Type} (i : nat) (l : list A) : list (jsstr * A) :=
  match l with
  | [] => []
  | x :: r => (index_key i, x) :: indexed (S i) r
  end.

(** The own enumerable entries that [{ ...metadata }] copies: an object's
    members, a string's characters or an array's elements under their
    indices, nothing for [null], [undefined], booleans and numbers. *)
Definition spread_entries (m : option json) : list (jsstr * json) :=
  match m with
  | Some (JObj kvs) => kvs
  | Some (JStr s) => indexed 0 (map (fun c => JStr [c]) s)
  | Some (JArr l) => indexed 0 l
  | _ => []
  end.

(** A field name that MongoDB's [$set] writes as a top-level field of that
    name: not empty, no ['.'] (a dotted name is a path into an embedded
    document), no leading ['$'], no NUL character, and not ["_id"]. *)
Definition plain_field (k : jsstr) : bool :=
  match k with
  | [] => false
  | c :: _ =>
      negb (N.eqb c 36) && negb (existsb (fun c => N.eqb c 46 || N.eqb c 0) k)
      && negb (jsstr_eqb k (js "_id"))
  end.

(** [$set] with plain field names: each field overwrites or is added. *)
Definition set_fields (d : session_doc) (fields : list (jsstr * json))
  : session_doc :=
  fold_left (fun d kv => obj_set d (fst kv) (snd kv)) fields d.

(** [findOne({ sessionId: s })] with a string [s]. *)
Fixpoint find_session (store : list session_doc) (s : jsstr)
  : option session_doc :=
  match store with
  | [] => None
  | d :: r =>
      if str_filter_match s (obj_lookup d (js "sessionId")) then Some d
      else find_session r s
  end.

Section SessionRoute.

(** What the string case does not cover is left open: how MongoDB matches
    a [sessionId] filter value that is not a string (a number, an array, an
    object, which may be a query operator) against a stored field, the
    document an upsert starts from for it, and a [$set] whose field names
    are not all plain (a dotted name updates an embedded document; a [$]
    prefix, an empty name, a NUL or ["_id"] make the update fail, [None]). *)
Variable sid_match : json -> option json -> bool.
Variable sid_seed : json -> session_doc.
Variable set_other : session_doc -> list (jsstr * json) -> option session_doc.

Definition session_matches (d : session_doc) (sid : json) : bool :=
  match sid with
  | JStr s => str_filter_match s (obj_lookup d (js "sessionId"))
  | _ => sid_match sid (obj_lookup d (js "sessionId"))
  end.

Definition apply_set (d : session_doc) (fields : list (jsstr * json))
  : option session_doc :=
  if forallb plain_field (map fst fields) then Some (set_fields d fields)
  else set_other d fields.

(** [updateOne({ sessionId }, { $set: fields }, { upsert: true })]: the
    first matching document is updated; otherwise a document is inserted,
    built from the filter's equality and then the [$set]. [None] when the
    update fails. *)
Fixpoint session_upsert (store : list session_doc) (sid : json)
    (fields : list (jsstr * json)) : option (list session_doc) :=
  match store with
  | [] =>
      option_map (fun d => [d])
        (apply_set (match sid with
                    | JStr s => [(js "sessionId", JStr s)]
                    | _ => sid_seed sid
                    end) fields)
  | d :: r =>
      if session_matches d sid then option_map (fun d' => d' :: r) (apply_set d fields)
      else option_map (cons d) (session_upsert r sid fields)
  end.

(** [POST /api/session]: the body ([None] when [request.json()] rejects),
    the time, and the collection; the environment and the database are
    taken to work. *)
Definition session_post (body : option json) (now : jsstr)
    (store : list session_doc) : Z * list session_doc :=
  match body with
  | None => (500%Z, store)
  | Some b =>
      match prop (Some b) (js "sessionId"), prop (Some b) (js "metadata") with
      | Ok (Some sid), Ok md =>
          if js_truthy sid then
            match session_upsert store sid
                    (spread_entries md ++ [(js "updatedAt", JStr now)]) with
            | Some store' => (200%Z, store')
            | None => (500%Z, store)
            end
          else (400%Z, store)
      | Ok None, Ok _ => (400%Z, store)
      | _, _ => (500%Z, store)
      end
  end.

End SessionRoute.

(** [sessionMetadata?.k] *)
Definition session_field (d : option session_doc) (k : string) : option json :=
  match d with
  | Some d => obj_lookup d (js k)
  | None => None
  end.

(** The preferences the combine route reads for a string [sessionId]
    (src/app/api/combine/route.js lines 176-181): [combineData || false],
    [joinType || ""] and [customPrompt || ""]. *)
Definition combine_prefs (store : list session_doc) (sid : jsstr)
  : json * json * json :=
  let d := find_session store sid in
  (js_or (session_field d "combineData") (JBool false),
   js_or (session_field d "joinType") (JStr []),
   js_or (session_field d "customPrompt") (JStr [])).

(* ------------------------------------------------------------------ *)
(** ** The end of [POST /api/margin/costs] *)

(** [{ status: "success", step: "cost_analysis", ...parsedAnalysis }] *)
Definition spread_into (base : list (jsstr * json)) (v : json) : json :=
  JObj (fold_left (fun d kv => obj_set d (fst kv) (snd kv)) (spread_entries (Some v)) base).

Definition jint (z : Z) : json := JNum z 0.

Fixpoint mapi_from {A B : Type} (f : nat -> A -> B) (i : nat) (l : list A) : list B :=
  match l with
  | [] => []
  | x :: r => f i x :: mapi_from f (S i) r
  end.

Fixpoint res_list (l : list (res json)) : res (list json) :=
  match l with
  | [] => Ok []
  | Ok x :: r => xs <- res_list r ;; Ok (x :: xs)
  | Throw e :: _ => Throw e
  end.

Section CostsFallback.

(** [Math.floor(n * x)] in double arithmetic, for the row count [n] and the
    constant [x] (0.1, 0.2, 0.3 or 0.6). *)
Variable floor_times : nat -> Q -> Z.

(** One entry of [worst_performers]. *)
Definition worst_performer (i : nat) (row : json) : res json :=
  pid <- prop (Some row) (js "product_id") ;;
  let zi := Z.of_nat i in
  Ok (JObj [(js "product_id",
              js_or pid (JStr (js "P" ++ js (NilEmpty.string_of_uint (Nat.to_uint (S i))))));
            (js "margin_pct", jint (15 - zi * 3));
            (js "revenue_impact", jint (1000 + zi * 500));
            (js "cost", jint (80 + zi * 10));
            (js "net_price", jint (95 + zi * 5))]).

(** The [parsedAnalysis] of the [catch] branch. *)
Definition cost_placeholder (data : list json) : res json :=
  let n := List.length data in
  wp <- res_list (mapi_from worst_performer 0 (firstn 5 data)) ;;
  Ok (JObj
    [(js "total_products", jint (Z.of_nat n));
     (js "avg_margin_pct", jint 25);
     (js "negative_margin_count", jint 0);
     (js "below_target_count", jint (floor_times n (2 # 10)));
     (js "margin_distribution",
       JObj [(js "negative", jint 0);
             (js "0-10%", jint (floor_times n (1 # 10)));
             (js "10-30%", jint (floor_times n (3 # 10)));
             (js "30%+", jint (floor_times n (6 # 10)))]);
     (js "worst_performers", JArr wp);
     (js "cost_insights",
       jstrs ["Cost margin analysis completed";
              "Review products with margins below target threshold"]%string);
     (js "sql", JStr (js ("SELECT product_id, cost, net_price, (net_price - cost) / net_price * 100 as margin_pct FROM pricing_data WHERE (net_price - cost) / net_price * 100 < 10")));
     (js "samples", JArr (firstn 5 data))]).

End CostsFallback.

(** A document of the [analyses] collection, with the fields the route
    writes. *)
Record analysis_doc := {
  an_fileId : jsstr;
  an_userId : jsstr;
  an_analysis : jsstr;
  an_parsed : json;
  an_updatedAt : jsstr }.

(** [updateOne({ fileId, userId }, { $set: { analysis, parsed, updatedAt } },
    { upsert: true })] *)
Fixpoint upsert_cost_analysis (db : list analysis_doc) (fileId userId : jsstr)
    (raw : jsstr) (parsed : json) (now : jsstr) : list analysis_doc :=
  match db with
  | [] => [{| an_fileId := fileId; an_userId := userId; an_analysis := raw;
              an_parsed := parsed; an_updatedAt := now |}]
  | d :: r =>
      if jsstr_eqb (an_fileId d) fileId && jsstr_eqb (an_userId d) userId then
        {| an_fileId := fileId; an_userId := userId; an_analysis := raw;
           an_parsed := parsed; an_updatedAt := now |} :: r
      else d :: upsert_cost_analysis r fileId userId raw parsed now
  end.

Fixpoint find_cost_analysis (db : list analysis_doc) (fileId userId : jsstr)
  : option analysis_doc :=
  match db with
  | [] => None
  | d :: r =>
      if jsstr_eqb (an_fileId d) fileId && jsstr_eqb (an_userId d) userId then Some d
      else find_cost_analysis r fileId userId
  end.

(** The route after the model call: the rows, the reply text ([None] when
    the reply has none), the time, the file and user, whether the database
    write succeeds, and the collection. Returns the status, the response
    body and the collection after the request. *)
Definition costs_after_model (floor_times : nat -> Q -> Z) (data : list json)
    (responseText : option jsstr) (now fileId userId : jsstr) (db_ok : bool)
    (db : list analysis_doc) : Z * json * list analysis_doc :=
  let analysisRaw := match responseText with
                     | Some t => t
                     | None => js "No analysis generated"
                     end in
  let parsed := match JSON_parse analysisRaw with
                | Some v => Ok v
                | None => cost_placeholder floor_times data
                end in
  match parsed with
  | Throw _ => (500%Z, JObj [(js "error", JStr (js "Internal server error"))], db)
  | Ok parsedAnalysis =>
      let db' := if db_ok
                 then upsert_cost_analysis db fileId userId analysisRaw parsedAnalysis now
                 else db in
      (200%Z,
       spread_into [(js "status", JStr (js "success")); (js "step", JStr (js "cost_analysis"))]
         parsedAnalysis,
       db')
  end.

(** [Math.floor(n * x)] computed exactly, for the examples. *)
Definition ex_floor_times (n : nat) (x : Q) : Z := Qfloor (inject_Z (Z.of_nat n) * x)%Q.


(* ------------------------------------------------------------------ *)
(** ** The ownership checks of the analysis routes *)

(** What an analysis route does past its checks: the model request and the
    write to the [analyses] collection. *)
Inductive route_effect := ModelCall | WriteAnalyses.

(** [findOne({ _id, "metadata.userId": userId })] *)
Fixpoint find_owned (files : list file_doc) (id uid : jsstr) : option file_doc :=
  match files with
  | [] => None
  | f :: r =>
      if jsstr_eqb (f_id f) id && jsstr_eqb (f_userId f) uid then Some f
      else find_owned r id uid
  end.

(** [findOne({ filename, "metadata.userId": userId })] *)
Fixpoint find_owned_by_name (files : list file_doc) (name uid : jsstr)
  : option file_doc :=
  match files with
  | [] => None
  | f :: r =>
      if jsstr_eqb (f_filename f) name && jsstr_eqb (f_userId f) uid then Some f
      else find_owned_by_name r name uid
  end.

Section OwnershipChecks.

(** [ObjectId.isValid(v)] *)
Variable oid_valid : json -> bool.
(** The id of [new ObjectId(v)] for a valid [v], as the files store it. *)
Variable oid_of : json -> jsstr.
(** [String(v)] *)
Variable js_String : json -> jsstr.
(** The rest of a route once its file is found: its status and effects. *)
Variable after_found : file_doc -> Z * list route_effect.

(** The body a route reads when [request.json()] fails: [{}]. *)
Definition body_or_empty (body : option json) : json :=
  match body with Some b => b | None => JObj [] end.

(** [(qFileId && qFileId.trim()) || (body?.fileId && String(body.fileId).trim())
    || null] of the costs and leakage routes. *)
Definition costs_file_id (query : option jsstr) (body : json) : jsstr :=
  let from_query := match query with
                    | Some q => js_trim q
                    | None => []
                    end in
  match from_query with
  | _ :: _ => from_query
  | [] =>
      match opt_prop (Some body) (js "fileId") with
      | Some v => if js_truthy v then
                    js_trim (match v with JStr s => s | _ => js_String v end)
                  else []
      | None => []
      end
  end.

(** [POST /api/margin/costs] and [POST /api/margin/leakage] up to the file
    lookup: the environment check, the file id, the user, and the files. *)
Definition costs_route (env_ok : bool) (query : option jsstr) (body : option json)
    (userId : option jsstr) (files : list file_doc) : Z * list route_effect :=
  if negb env_ok then (500%Z, []) else
  let fileId := costs_file_id query (body_or_empty body) in
  match fileId with
  | [] => (400%Z, [])
  | _ =>
      if negb (oid_valid (JStr fileId)) then (400%Z, []) else
      match userId with
      | None | Some [] => (401%Z, [])
      | Some uid =>
          match find_owned files (oid_of (JStr fileId)) uid with
          | None => (404%Z, [])
          | Some f => after_found f
          end
      end
  end.

(** [queryFileId || body.fileId || body.id || null] of the pricing route. *)
Definition pricing_incoming (query : option jsstr) (fid bid : option json)
  : option json :=
  match query with
  | Some (_ :: _ as q) => Some (JStr q)
  | _ => if js_truthy (dflt fid JNull) then fid
         else if js_truthy (dflt bid JNull) then bid else None
  end.

(** [POST /api/margin/pricing] up to the file lookup: the id is
    [queryFileId || body.fileId || body.id]; a valid one is looked up by id,
    any other by file name ([body.filename || body.fileName] first). *)
Definition pricing_route (env_ok : bool) (query : option jsstr) (body : option json)
    (userId : option jsstr) (files : list file_doc) : Z * list route_effect :=
  if negb env_ok then (500%Z, []) else
  match userId with
  | None | Some [] => (401%Z, [])
  | Some uid =>
      let b := body_or_empty body in
      match prop (Some b) (js "fileId"), prop (Some b) (js "id"),
            prop (Some b) (js "filename"), prop (Some b) (js "fileName") with
      | Ok fid, Ok bid, Ok fname, Ok fName =>
          let incoming := pricing_incoming query fid bid in
          let fallback :=
            if js_truthy (dflt fname JNull) then fname
            else if js_truthy (dflt fName JNull) then fName else None in
          let lookup :=
            match incoming with
            | Some v =>
                if oid_valid v then Some (find_owned files (oid_of v) uid)
                else None
            | None => None
            end in
          let lookup :=
            match lookup with
            | Some r => Some r
            | None =>
                match fallback, incoming with
                | Some v, _ | None, Some v =>
                    Some (find_owned_by_name files (js_String v) uid)
                | None, None => None
                end
            end in
          match lookup with
          | None => (400%Z, [])
          | Some None => (404%Z, [])
          | Some (Some f) => after_found f
          end
      | _, _, _, _ => (500%Z, [])
      end
  end.

(** The logical-checks and outlier routes up to the file lookup: [fileId]
    from the body; [new ObjectId(fileId)] throws on an invalid id, which the
    route's [catch] turns into a 500. *)
Definition body_file_route (body : option json) (userId : option jsstr)
    (files : list file_doc) : Z * list route_effect :=
  match userId with
  | None | Some [] => (401%Z, [])
  | Some uid =>
      match prop (Some (body_or_empty body)) (js "fileId") with
      | Throw _ => (500%Z, [])
      | Ok fid =>
          match fid with
          | Some v =>
              if negb (js_truthy v) then (400%Z, [])
              else if negb (oid_valid v) then (500%Z, [])
              else match find_owned files (oid_of v) uid with
                   | None => (404%Z, [])
                   | Some f => after_found f
                   end
          | None => (400%Z, [])
          end
      end
  end.

End OwnershipChecks.

(** [POST /api/margin-report] (src/app/api/margin-report/route.ts lines
    16-64), which creates a run: the user, and the body ([None] when
    [request.json()] rejects). A truthy [body?.fileId] is inserted into
    [margin_analyses] with the new run, whatever file it names. *)
Definition margin_report_route (userId : option jsstr) (body : option json)
  : Z * list route_effect :=
  match userId with
  | None | Some [] => (401%Z, [])
  | Some _ =>
      match body with
      | None => (500%Z, [])
      | Some b =>
          if js_truthy (dflt (opt_prop (Some b) (js "fileId")) JNull)
          then (200%Z, [WriteAnalyses]) else (400%Z, [])
      end
  end.

(** No file of [files] with id [id] belongs to [uid]. *)
Definition not_owned (files : list file_doc) (id uid : jsstr) : Prop :=
  forall f, In f files -> f_id f = id -> f_userId f <> uid.

(* ------------------------------------------------------------------ *)
(** ** [parseAIResponse] of the combine route
    (src/app/api/combine/route.js lines 31-130) *)

(** [/```(json)?/g]: three backquotes, then [json] when it follows. *)
Definition re_code_fence (s : jsstr) : option (jsstr * jsstr) :=
  match s with
  | 96 :: 96 :: 96 :: r =>
      match r with
      | 106 :: 115 :: 111 :: 110 :: r' => Some ([], r')
      | _ => Some ([], r)
      end
  | _ => None
  end.

(** [/,\s*$/] replaced by the empty string. *)
Definition re_comma_ws_end (s : jsstr) : option (jsstr * jsstr) :=
  match s with
  | 44 :: r => match drop_ws r with [] => Some ([], []) | _ => None end
  | _ => None
  end.

(** [/\]\s*$/] replaced by the empty string. *)
Definition re_rbracket_ws_end (s : jsstr) : option (jsstr * jsstr) :=
  match s with
  | 93 :: r => match drop_ws r with [] => Some ([], []) | _ => None end
  | _ => None
  end.

(** [/}\s*$/] replaced by [}]]. *)
Definition re_rbrace_ws_end (s : jsstr) : option (jsstr * jsstr) :=
  match s with
  | 125 :: r => match drop_ws r with [] => Some ([125; 93], []) | _ => None end
  | _ => None
  end.

(** [/,\s*}$/] replaced by [}]. *)
Definition re_comma_ws_rbrace_end (s : jsstr) : option (jsstr * jsstr) :=
  match s with
  | 44 :: r => match drop_ws r with [125] => Some ([125], []) | _ => None end
  | _ => None
  end.

(** [/\]\s*\[/g] replaced by [,]. *)
Definition re_brackets_join (s : jsstr) : option (jsstr * jsstr) :=
  match s with
  | 93 :: r => match drop_ws r with 91 :: r' => Some ([44], r') | _ => None end
  | _ => None
  end.

(** [response.replace(/```(json)?/g, '').trim()] *)
Definition clean_response (response : jsstr) : jsstr :=
  js_trim (replace_all re_code_fence response).

(** [JSON.parse] of the first text that parses, in order. *)
Fixpoint first_parse (texts : list jsstr) : option json :=
  match texts with
  | [] => None
  | t :: r => match JSON_parse t with Some v => Some v | None => first_parse r end
  end.

(** Attempt 2: the array substring and its fixes. *)
Definition array_substring_attempt (cleanResponse : jsstr) : option json :=
  let jsonStart := index_of 91 cleanResponse in
  let jsonEnd := last_index_of 93 cleanResponse in
  let candidate :=
    match jsonStart, jsonEnd with
    | Some i, Some j =>
        if Nat.ltb i j then firstn (S j - i) (skipn i cleanResponse)
        else skipn i cleanResponse
    | Some i, None => skipn i cleanResponse
    | None, _ => cleanResponse
    end in
  first_parse
    [candidate;
     candidate ++ [93];
     [91] ++ candidate ++ [93];
     replace_first re_comma_ws_end candidate ++ [93];
     replace_first re_comma_ws_end candidate;
     replace_first re_rbracket_ws_end candidate ++ [93];
     replace_first re_rbrace_ws_end candidate].

(** [s.split(c)] for a one-unit separator. *)
Fixpoint split_on (c : jschar) (s : jsstr) : list jsstr :=
  match s with
  | [] => [[]]
  | x :: r =>
      if x =? c then [] :: split_on c r
      else match split_on c r with
           | h :: t => (x :: h) :: t
           | [] => [[x]]
           end
  end.

Definition starts_with_char (c : jschar) (s : jsstr) : bool :=
  match s with x :: _ => x =? c | [] => false end.

(** The results of [JSON.parse] on each text, the failures dropped. *)
Fixpoint parse_each (texts : list jsstr) : list json :=
  match texts with
  | [] => []
  | t :: r => match JSON_parse t with
              | Some v => v :: parse_each r
              | None => parse_each r
              end
  end.

(** Attempt 3: NDJSON. A throw of the joined-array parse is caught by the
    attempt's [try], which then yields nothing. *)
Definition ndjson_attempt (cleanResponse : jsstr) : option json :=
  let lines := filter (fun l => starts_with_char 123 l || starts_with_char 91 l)
                 (map js_trim (split_on 10 cleanResponse)) in
  match lines with
  | [] => None
  | l0 :: _ =>
      if starts_with_char 91 l0 then
        JSON_parse (replace_all re_brackets_join (List.concat lines))
      else
        match parse_each (map (replace_first re_comma_ws_rbrace_end) lines) with
        | [] => None
        | objects => Some (JArr objects)
        end
  end.

(** The lookahead [(?=\s*\{|\s*$)]. *)
Definition obj_lookahead (s : jsstr) : bool :=
  match drop_ws s with [] => true | c :: _ => c =? 123 end.

(** [[\s\S]*?\}] followed by the lookahead: the shortest run up to a [}]
    the lookahead accepts. *)
Fixpoint lazy_close (s : jsstr) : option (jsstr * jsstr) :=
  match s with
  | [] => None
  | c :: r =>
      if (c =? 125) && obj_lookahead r then Some ([c], r)
      else match lazy_close r with
           | Some (m, rest) => Some (c :: m, rest)
           | None => None
           end
  end.

(** [/\{[\s\S]*?\}(?=\s*\{|\s*$)/] at the start of [s]: the match and the
    input after it. *)
Definition object_regex_at (s : jsstr) : option (jsstr * jsstr) :=
  match s with
  | 123 :: r => match lazy_close r with
                | Some (m, rest) => Some (123 :: m, rest)
                | None => None
                end
  | _ => None
  end.

(** The matches of [objectRegex.exec] in a loop ([lastIndex] after each
    match; a miss at a position moves one code unit on). *)
Fixpoint object_matches_fuel (fuel : nat) (s : jsstr) : list jsstr :=
  match fuel with
  | O => []
  | S f =>
      match s with
      | [] => []
      | _ :: r =>
          match object_regex_at s with
          | Some (m, rest) => m :: object_matches_fuel f rest
          | None => object_matches_fuel f r
          end
      end
  end.

Definition object_matches (s : jsstr) : list jsstr :=
  object_matches_fuel (S (List.length s)) s.

(** Attempt 4: the objects the regular expression finds that parse. *)
Definition regex_objects_attempt (cleanResponse : jsstr) : option json :=
  match parse_each (object_matches cleanResponse) with
  | [] => None
  | jsonObjects => Some (JArr jsonObjects)
  end.

(** The final attempt: [[JSON.parse(cleanResponse)]]. *)
Definition wrap_single_attempt (cleanResponse : jsstr) : option json :=
  match JSON_parse cleanResponse with
  | Some v => Some (JArr [v])
  | None => None
  end.

(** [parseAIResponse(response)], with the early returns of the source. *)
Definition parseAIResponse (response : json) : res json :=
  match response with
  | JStr r =>
      let cleanResponse := clean_response r in
      match JSON_parse cleanResponse with
      | Some v => Ok v
      | None =>
      match array_substring_attempt cleanResponse with
      | Some v => Ok v
      | None =>
      match ndjson_attempt cleanResponse with
      | Some v => Ok v
      | None =>
      match regex_objects_attempt cleanResponse with
      | Some v => Ok v
      | None =>
      match JSON_parse cleanResponse with
      | Some v => Ok (JArr [v])
      | None => Throw (JStr (js "Failed to parse API response"))
      end end end end end
  | _ => Throw (JStr (js "Response must be a string"))
  end.

(** The same function as the specification words it: a non-string throws;
    a cleaned text that is valid JSON is returned parsed; otherwise the
    first fallback that succeeds gives the result, and it throws when none
    does. *)
Definition parseAIResponse_fallbacks : list (jsstr -> option json) :=
  [array_substring_attempt; ndjson_attempt; regex_objects_attempt;
   wrap_single_attempt].

Fixpoint first_success (fs : list (jsstr -> option json)) (c : jsstr)
  : option json :=
  match fs with
  | [] => None
  | f :: r => match f c with Some v => Some v | None => first_success r c end
  end.

Definition parseAIResponse_spec (response : json) : res json :=
  match response with
  | JStr r =>
      let c := clean_response r in
      match JSON_parse c with
      | Some v => Ok v
      | None =>
          match first_success parseAIResponse_fallbacks c with
          | Some v => Ok v
          | None => Throw (JStr (js "Failed to parse API response"))
          end
      end
  | _ => Throw (JStr (js "Response must be a string"))
  end.


(* ------------------------------------------------------------------ *)
(** ** [maskSecret] (src/unnamed/part_002 lines 103-107, and the same in
    src/unnamed/part_003 lines 28-32 and src/app/api/margin/costs/route.ts
    lines 31-35) *)

(** [secret.slice(-4)] *)
Definition slice_last (k : nat) (s : jsstr) : jsstr :=
  skipn (List.length s - k) s.

Definition maskSecret (secret : option json) : jsstr :=
  match secret with
  | Some (JStr ((_ :: _) as s)) =>
      if Nat.leb (List.length s) 4 then js "***" ++ s
      else js "***" ++ slice_last 4 s
  | _ => js "N/A"
  end.

(* ------------------------------------------------------------------ *)
(** ** [callGeminiWithRetry] (src/unnamed/part_002 lines 225-276) *)

(** What one [model.generateContent] call gives: the text at
    [result.response.candidates[0].content.parts[0].text] as [String(...)]
    renders it ([""] when absent), or an exception with its message
    ([String(e?.message ?? e)]). *)
Inductive gen_reply := GenText (text : jsstr) | GenThrow (message : jsstr).

(** [{ raw, parsed }] of the result, [parsed] being [JNull] for [null], with
    the number of model calls made. *)
Record gemini_result := { g_raw : jsstr; g_parsed : json; g_calls : nat }.

(** [a || b] on two strings. *)
Definition str_or (a b : jsstr) : jsstr := match a with [] => b | _ => a end.

(** The [for] loop: [attempt] is the loop variable, [fuel] the iterations
    left, [calls] the number of model calls so far (the [k]-th call is
    answered by [reply k]) and [lastRaw] the variable of the same name. *)
Fixpoint gemini_loop (reply : nat -> gen_reply) (attempts attempt fuel calls : nat)
    (lastRaw : jsstr) : gemini_result :=
  match fuel with
  | O => {| g_raw := lastRaw; g_parsed := JNull; g_calls := calls |}
  | S fuel' =>
      match reply calls with
      | GenThrow msg =>
          gemini_loop reply attempts (S attempt) fuel' (S calls) (str_or lastRaw msg)
      | GenText text =>
          let raw := js_trim text in
          let parsed := extractFirstJsonObj raw in
          if js_truthy parsed then {| g_raw := raw; g_parsed := parsed; g_calls := S calls |}
          else if Nat.ltb attempt attempts then
            (* the re-prompt with the reminder *)
            match reply (S calls) with
            | GenThrow msg =>
                gemini_loop reply attempts (S attempt) fuel' (S (S calls)) (str_or raw msg)
            | GenText text2 =>
                let raw2 := js_trim text2 in
                let parsed2 := extractFirstJsonObj raw2 in
                if js_truthy parsed2
                then {| g_raw := raw2; g_parsed := parsed2; g_calls := S (S calls) |}
                else gemini_loop reply attempts (S attempt) fuel' (S (S calls)) raw2
            end
          else gemini_loop reply attempts (S attempt) fuel' (S calls) raw
      end
  end.

Definition callGeminiWithRetry (reply : nat -> gen_reply) (attempts : nat) : gemini_result :=
  gemini_loop reply attempts 1 attempts 0 [].

(** ** The end of [POST /api/run/logical] (src/unnamed/part_002 lines 367-426):
    from the result of [callGeminiWithRetry] to the response, for the user
    [uid], the body's [runId] and the time [now]. Returns the status, the
    response body, and the [analyses] write ([runId], [userId] and the
    [steps.logical] value) when one is made. *)

(** [key in parsed] *)
Definition has_key (v : json) (k : string) : bool :=
  match v with
  | JObj kvs => match obj_lookup kvs (js k) with Some _ => true | None => false end
  | _ => false
  end.

Definition logical_after_model (uid : jsstr) (runId : option json) (now : jsstr)
    (g : gemini_result) : Z * json * option (json * jsstr * json) :=
  let raw := g_raw g in
  let parsed := g_parsed g in
  match raw with
  | [] => (500%Z, JObj [(js "status", JStr (js "error"));
                        (js "error", JStr (js "No response from model"))], None)
  | _ =>
      if negb (js_truthy parsed)
         || negb (match parsed with JObj _ | JArr _ => true | _ => false end) then
        (502%Z, JObj [(js "status", JStr (js "error"));
                      (js "error", JStr (js "Failed to parse JSON from model response"));
                      (js "raw", JStr raw)], None)
      else if negb (has_key parsed "insights") || negb (has_key parsed "samples")
              || negb (has_key parsed "sql") then
        (502%Z, JObj [(js "status", JStr (js "error"));
                      (js "error", JStr (js "Model returned invalid JSON shape"));
                      (js "parsed", parsed)], None)
      else
        let p := Some parsed in
        let status := js_or (opt_prop p (js "status")) (JStr (js "success")) in
        let insights := js_or (opt_prop p (js "insights")) (JArr []) in
        let sql := js_or (opt_prop p (js "sql")) (JStr []) in
        let samples := js_or (opt_prop p (js "samples")) (JArr []) in
        let write :=
          match runId with
          | Some r =>
              if js_truthy r then
                Some (r, uid, JObj [(js "status", status); (js "insights", insights);
                                    (js "sql", sql); (js "samples", samples);
                                    (js "updatedAt", JStr now)])
              else None
          | None => None
          end in
        (200%Z, JObj [(js "status", status); (js "insights", insights);
                      (js "sql", sql); (js "samples", samples)], write)
  end.

(* ------------------------------------------------------------------ *)
(** ** [GET /api/margin-report/[runId]] (src/unnamed/part_007 lines 83-160),
    on the [margin_analyses] documents the save route writes (they carry no
    [parsed], [parsedAnalysis], [analysisRaw], [fileId] or [meta] field). *)

Section ReportGet.

(** The file-name lookup in [excelFiles.files] for a truthy candidate id:
    the [filename] of the document found, [None] when none is found or the
    lookup throws. *)
Variable file_name_of : json -> option json.

(** [analysis], after [JSON.parse] of a string value (kept as is when the
    parse throws). *)
Definition report_analysis (a : json) : json :=
  match a with
  | JStr s => match JSON_parse s with Some v => v | None => a end
  | _ => a
  end.

Definition report_get (runId : option jsstr) (clerkUserId : option jsstr)
    (db : list margin_analysis_doc) : Z * json :=
  match runId with
  | None | Some [] => (400%Z, JObj [(js "error", JStr (js "runId param required"))])
  | Some rid =>
      match clerkUserId with
      | None | Some [] => (401%Z, JObj [(js "error", JStr (js "Authentication required"))])
      | Some uid =>
          match find_analysis db rid uid with
          | None => (404%Z, JObj [(js "error", JStr (js "Not found"))])
          | Some d =>
              (* record.analysis ?? (absent fields) ?? null *)
              let stored := ma_analysis d in
              let analysis := report_analysis stored in
              let candidate :=
                js_or (opt_prop (opt_prop (Some stored) (js "meta")) (js "fileId"))
                  (js_or (opt_prop (opt_prop (Some analysis) (js "meta")) (js "fileId"))
                     JNull) in
              let fileName :=
                if js_truthy candidate then
                  match file_name_of candidate with
                  | Some f => if js_truthy f then f else JNull
                  | None => JNull
                  end
                else JNull in
              let meta := match coalesce (opt_prop (Some stored) (js "meta")) None with
                          | Some m => m | None => JNull end in
              (200%Z, JObj [(js "runId", JStr rid); (js "analysis", analysis);
                            (js "fileName", fileName); (js "meta", meta);
                            (js "status", JStr (ma_status d));
                            (js "savedAt", JStr (ma_updatedAt d))])
          end
      end
  end.

End ReportGet.

(* ------------------------------------------------------------------ *)
(** ** The in-memory lock of [POST /api/combine]
    (src/app/api/combine/route.js lines 11, 132-469) *)

(** The value of a JSON number [m * 10^e]. *)
Definition num_value (m e : Z) : Q :=
  if Z.leb 0 e then inject_Z (m * 10 ^ e) else Qmake m (Z.to_pos (10 ^ (- e))).

(** SameValueZero, the key equality of a [Map], on values [request.json()]
    builds: primitives compare by value; an object or array is a new one at
    each request, so it equals no key stored by an earlier request. *)
Definition same_value_zero (a b : json) : bool :=
  match a, b with
  | JNull, JNull => true
  | JBool x, JBool y => Bool.eqb x y
  | JNum m e, JNum m' e' => Qeq_bool (num_value m e) (num_value m' e')
  | JStr x, JStr y => jsstr_eqb x y
  | _, _ => false
  end.

(** [processingLocks]: the keys of the map, in insertion order. *)
Definition lock_has (locks : list json) (k : json) : bool :=
  existsb (same_value_zero k) locks.

Definition lock_set (locks : list json) (k : json) : list json :=
  if lock_has locks k then locks else locks ++ [k].

Definition lock_delete (locks : list json) (k : json) : list json :=
  filter (fun k' => negb (same_value_zero k k')) locks.

(** How the [try] block ends once the lock is set: an existing combined file
    is returned, the combined file is stored, the model API answers a
    non-ok status, [parseAIResponse] yields no array, or another exception
    is thrown with the given [name] (a database or GridFS error, the abort
    of the model request by its timers, which has the name ["AbortError"], a
    non-JSON reply, a parse failure). *)
Inductive combine_exit :=
| ExitReuse
| ExitStored
| ExitApiNotOk
| ExitNotArray
| ExitThrow (name : jsstr).

(** A response with its status, or the handler's promise rejected with an
    error of the given name. *)
Inductive handler_outcome := Respond (status : Z) | Reject (name : jsstr).

(** The [catch] block: its first statement, [processingLocks.delete(sessionId)],
    names [sessionId], which is declared with [const] inside the [try]
    block and so is not in scope there: it throws a [ReferenceError]; the
    [finally] block then closes the client and the handler rejects. *)
Definition combine_catch (locks : list json) : handler_outcome * list json :=
  (Reject (js "ReferenceError"), locks).

(** The handler as seen by the lock: whether both environment variables are
    set, the user [auth()] gives, the body ([None] when [request.json()]
    rejects), how the [try] block ends, and the locks before the request. *)
Definition combine_locked (env_ok : bool) (userId : option jsstr) (body : option json)
    (exit : combine_exit) (locks : list json) : handler_outcome * list json :=
  if negb env_ok then (Respond 500%Z, locks) else
  match userId with
  | None | Some [] => (Respond 401%Z, locks)
  | Some _ =>
      match body with
      | None => combine_catch locks
      | Some b =>
          match prop (Some b) (js "sessionId") with
          | Throw _ => combine_catch locks
          | Ok None => (Respond 400%Z, locks)
          | Ok (Some sid) =>
              if negb (js_truthy sid) then (Respond 400%Z, locks)
              else if lock_has locks sid then (Respond 429%Z, locks)
              else
                let locks1 := lock_set locks sid in
                match exit with
                | ExitReuse | ExitStored => (Respond 200%Z, lock_delete locks1 sid)
                | ExitApiNotOk | ExitNotArray => combine_catch (lock_delete locks1 sid)
                | ExitThrow _ => combine_catch locks1
                end
          end
      end
  end.

Record combine_request := {
  cr_env_ok : bool;
  cr_userId : option jsstr;
  cr_body : option json;
  cr_exit : combine_exit }.

(** Requests handled one after another by the same server process. *)
Fixpoint combine_run (locks : list json) (reqs : list combine_request)
  : list handler_outcome * list json :=
  match reqs with
  | [] => ([], locks)
  | r :: rest =>
      let '(o, locks1) := combine_locked (cr_env_ok r) (cr_userId r) (cr_body r)
                            (cr_exit r) locks in
      let '(os, locks2) := combine_run locks1 rest in
      (o :: os, locks2)
  end.

(** A request for session [s] that passes the environment and
    authentication checks. *)
Definition request_for (r : combine_request) (s : jsstr) : Prop :=
  cr_env_ok r = true
  /\ (exists u, cr_userId r = Some u /\ u <> [])
  /\ exists b, cr_body r = Some b /\ get_prop b (js "sessionId") = Some (JStr s).

(* ------------------------------------------------------------------ *)
(** ** [processFileData] of [POST /api/margin/costs]
    (src/app/api/margin/costs/route.ts lines 37-107) *)

(** A cell of the parsed table: csv-parse gives strings; [sheet_to_json]
    with [defval: ""] gives strings, numbers and booleans. A number is kept
    with the text its [toString()] gives. *)
Inductive cell := CellStr (s : jsstr) | CellNum (shown : jsstr) | CellBool (b : bool).

(** [x?.toString?.().trim?.()], for a cell or a missing one ([None]). *)
Definition cell_string (c : cell) : jsstr :=
  match c with
  | CellStr s => s
  | CellNum t => t
  | CellBool b => if b then js "true" else js "false"
  end.

(** [row?.[i]?.toString?.().trim?.() ?? ""] *)
Definition cell_text (c : option cell) : jsstr :=
  match c with Some c => js_trim (cell_string c) | None => [] end.

(** The code units [/[^a-zA-Z0-9\s_-]/g] keeps. *)
Definition col_char (c : jschar) : bool :=
  (65 <=? c) && (c <=? 90) || (97 <=? c) && (c <=? 122) || (48 <=? c) && (c <=? 57)
  || js_ws c || (c =? 95) || (c =? 45).

(** The column name of a header cell: [col?.toString()?.trim() || "Unnamed"]
    with the other code units removed. *)
Definition header_name (c : cell) : jsstr :=
  let t := js_trim (cell_string c) in
  filter col_char (match t with [] => js "Unnamed" | _ => t end).

(** [obj[col] = v] on an object made by [{}]: the [__proto__] setter
    ignores a string, every other name is an own property. *)
Definition proto_key : jsstr := js "__proto__".

Definition set_cell (obj : list (jsstr * json)) (col : jsstr) (v : jsstr)
  : list (jsstr * json) :=
  if jsstr_eqb col proto_key then obj else obj_set obj col (JStr v).

Fixpoint process_row_from (row : list cell) (i : nat) (cols : list jsstr)
    (obj : list (jsstr * json)) : list (jsstr * json) :=
  match cols with
  | [] => obj
  | col :: rest =>
      process_row_from row (S i) rest (set_cell obj col (cell_text (nth_error row i)))
  end.

(** [processRow]: [columns.reduce((obj, col, i) => ..., {})] *)
Definition processRow (row : list cell) (columns : list jsstr) : list (jsstr * json) :=
  process_row_from row 0 columns [].

(** [typeof rawHeader[0] === "number"] *)
Definition has_index_column (rawHeader : list cell) : bool :=
  match rawHeader with CellNum _ :: _ => true | _ => false end.

(** The part common to both branches, from the parsed rows to
    [{ columns, data }] ([data] as the rows' objects). *)
Definition process_table (records : list (list cell))
  : list jsstr * list (list (jsstr * json)) :=
  let rawHeader := match records with h :: _ => h | [] => [] end in
  let hasIndexColumn := has_index_column rawHeader in
  let rawColumns := if hasIndexColumn then tl rawHeader else rawHeader in
  let columns := map header_name rawColumns in
  let data := map (fun row => processRow (if hasIndexColumn then tl row else row) columns)
                  (tl records) in
  (columns, data).

Fixpoint starts_with (s pre : jsstr) : bool :=
  match pre, s with
  | [], _ => true
  | p :: pre', c :: s' => (p =? c) && starts_with s' pre'
  | _ :: _, [] => false
  end.

(** [s.includes(pat)] *)
Fixpoint js_includes (s pat : jsstr) : bool :=
  starts_with s pat || match s with [] => false | _ :: r => js_includes r pat end.

(** [isCSV]. [toLowerCase] is taken on ASCII letters: no other code unit
    lowercases to a letter of ["csv"], ["excel"] or ["spreadsheet"]. *)
Definition isCSV (contentType filename : jsstr) : bool :=
  let lc := map ascii_lower contentType in
  match contentType with
  | _ :: _ =>
      if js_includes lc (js "csv") then true
      else if js_includes lc (js "excel") || js_includes lc (js "spreadsheet") then false
      else match filename with
           | _ :: _ => ends_with_ci filename (js ".csv")
           | [] => false
           end
  | [] =>
      match filename with
      | _ :: _ => ends_with_ci filename (js ".csv")
      | [] => false
      end
  end.

Section ProcessFileData.

(** The two parsers: [parse(buffer.toString(), ...)] of csv-parse, and
    [sheet_to_json] of the first sheet of [XLSX.read(buffer)]. *)
Variable csv_parse : jsstr -> list (list jsstr).
Variable xlsx_rows : jsstr -> list (list cell).

Definition processFileData (buffer filename contentType : jsstr)
  : list jsstr * list (list (jsstr * json)) :=
  if isCSV contentType filename
  then process_table (map (map CellStr) (csv_parse buffer))
  else process_table (xlsx_rows buffer).

(** The check that follows in the handler (lines 226-229): a 400 when
    there is no column or no data row. *)
Definition costs_data_check (buffer filename contentType : jsstr) : option (Z * json) :=
  let '(columns, data) := processFileData buffer filename contentType in
  match columns, data with
  | [], _ | _, [] => Some (400%Z, JObj [(js "error", JStr (js "No valid data found in file"))])
  | _, _ => None
  end.

End ProcessFileData.

(* ------------------------------------------------------------------ *)
(** ** The combined workbook of [POST /api/combine]
    (src/app/api/combine/route.js lines 395-415) *)

Fixpoint res_mapA {A B : Type} (f : A -> res B) (l : list A) : res (list B) :=
  match l with
  | [] => Ok []
  | x :: r => y <- f x ;; ys <- res_mapA f r ;; Ok (y :: ys)
  end.

(** A sheet row as the values given to [addRow] ([None] for [undefined]). *)
Definition sheet_row := list (option json).

Section CombinedSheet.

(** [Object.keys(v)] (throws on [null]) and the property read [row[k]]. *)
Variable object_keys : json -> res (list jsstr).
Variable member : json -> jsstr -> res (option json).

(** [headers.map(header => row[header])] *)
Definition row_values (headers : list jsstr) (row : json) : res sheet_row :=
  res_mapA (member row) headers.

Definition batchSize : nat := 1000.

(** The [for] loop over [combinedData.slice(i, i + batchSize)]; [fuel]
    bounds its iterations. *)
Fixpoint add_batches (fuel i : nat) (data : list json) (headers : list jsstr)
    (sheet : list sheet_row) : res (list sheet_row) :=
  match fuel with
  | O => Ok sheet
  | S f =>
      if Nat.ltb i (List.length data) then
        rows <- res_mapA (row_values headers) (firstn batchSize (skipn i data)) ;;
        add_batches f (i + batchSize) data headers (sheet ++ rows)
      else Ok sheet
  end.

(** The rows of the [Combined Data] sheet. *)
Definition combined_sheet (combinedData : list json) : res (list sheet_row) :=
  match combinedData with
  | [] => Ok [[Some (JStr (js "No data combined"))]]
  | first :: _ =>
      headers <- object_keys first ;;
      add_batches (S (List.length combinedData)) 0 combinedData headers
        [map (fun h => Some (JStr h)) headers]
  end.

End CombinedSheet.

(* ------------------------------------------------------------------ *)
(** ** [datasetsText] of [POST /api/combine] (src/app/api/combine/route.js
    lines 214-251): the text of one file in the prompt *)

(** A worksheet as its rows, from row 1; a cell is [None] when empty
    ([eachCell] with [includeEmpty: false] skips it) and otherwise the text
    [Array.prototype.join] gives its value. *)
Definition worksheet := list (list (option jsstr)).

Fixpoint join_with (sep : jsstr) (l : list jsstr) : jsstr :=
  match l with
  | [] => []
  | [x] => x
  | x :: r => x ++ sep ++ join_with sep r
  end.

Definition nonempty_cells (row : list (option jsstr)) : list jsstr :=
  flat_map (fun c => match c with Some t => [t] | None => [] end) row.

(** [worksheet.getRow(i)] for [i >= 1]: an empty row past the end. *)
Definition get_row (ws : worksheet) (i : nat) : list (option jsstr) :=
  match nth_error ws (i - 1) with Some r => r | None => [] end.

(** The sample-row loop [for (let i = 2; i <= rowCount; i++)]. *)
Fixpoint sample_rows (ws : worksheet) (i n : nat) : jsstr :=
  match n with
  | O => []
  | S n' => join_with (js "|") (nonempty_cells (get_row ws i)) ++ [10]
            ++ sample_rows ws (S i) n'
  end.

(** [worksheet.rowCount] is the number of the last row. *)
Definition dataset_text (filename : jsstr) (ws : worksheet) : jsstr :=
  let rowCount := Nat.min (List.length ws) 4 in
  js "[File: " ++ filename ++ js "]" ++ [10]
  ++ js "Columns: " ++ join_with (js ", ") (nonempty_cells (get_row ws 1)) ++ [10]
  ++ js "Sample Rows:" ++ [10]
  ++ sample_rows ws 2 (rowCount - 1).

(* ------------------------------------------------------------------ *)
(** ** [parseNDJSON] (src/app/api/combine/route.js lines 14-28) *)

Definition parseNDJSON (text : option json) : list json :=
  match text with
  | Some (JStr ((_ :: _) as s)) =>
      filter js_truthy
        (map (fun line => match JSON_parse line with Some v => v | None => JNull end)
             (filter (fun line => match line, js_trim line with
                                  | _ :: _, _ :: _ => true
                                  | _, _ => false
                                  end) (split_on 10 s)))
  | _ => []
  end.
(* ------------------------------------------------------------------ *)
(** ** [POST /api/combine] (src/app/api/combine/route.js lines 132-470) *)

(** What the combine route does outside its response: the model request
    (with the prompt texts of the session's files, and the join type and
    custom prompt it embeds) and the store of a new file. *)
Inductive combine_effect :=
| LLMCall (datasets : list jsstr) (joinType customPrompt : json)
| StoreFile (id : jsstr).

(** The model API's answer: the [fetch] or the reading of its body rejects
    with an error of the given name (["AbortError"] when one of the timers
    aborts it), or a response with its [ok] flag, its [content-type] header
    and its body text. *)
Inductive ai_reply :=
| AIReject (name : jsstr)
| AIResponse (ok : bool) (content_type : option jsstr) (text : jsstr).

(** [x[0]] on a value that is neither [null] nor [undefined]. *)
Definition index0 (x : json) : option json :=
  match x with
  | JArr (v :: _) => Some v
  | JObj kvs => obj_lookup kvs (js "0")
  | JStr (c :: _) => Some (JStr [c])
  | _ => None
  end.

(** [responseData.choices[0].message.content.trim()] (the
    [choices[0]?.finish_reason] read before it only logs): throws unless
    each step is there and the content is a string. *)
Definition reply_content (responseData : json) : res jsstr :=
  choices <- prop (Some responseData) (js "choices") ;;
  first <- match choices with
           | None | Some JNull => Throw type_error
           | Some c => Ok (index0 c)
           end ;;
  message <- prop first (js "message") ;;
  content <- prop message (js "content") ;;
  match content with
  | Some (JStr s) => Ok (js_trim s)
  | _ => Throw type_error
  end.

Definition err_name (e : json) : jsstr :=
  match e with JStr n => n | _ => js "Error" end.

Section CombineRoute.

(** The first worksheet [workbook.xlsx.load] builds from a stored file's
    bytes; [None] when the load rejects or the workbook has no worksheet
    ([worksheet.getRow] then throws). *)
Variable xlsx_sheet : file_doc -> option worksheet.
(** [JSON.stringify] of the array the NDJSON fallback builds. *)
Variable JSON_stringify : json -> jsstr.
(** [Object.keys(v)] and [row[k]], as in [combined_sheet]. *)
Variable object_keys : json -> res (list jsstr).
Variable member : json -> jsstr -> res (option json).
(** The [try] block after the lock is set, for a truthy [sessionId] that is
    not a string: how MongoDB matches such a filter value is left open,
    and with it the whole block (its exit, the body of a 200 response, the
    effects and the bucket after it). *)
Variable combine_other : jsstr -> json -> list session_doc -> list file_doc ->
  Z -> Z -> Z -> jsstr -> ai_reply -> combine_exit * json * list combine_effect * list file_doc.

(** One file of the snapshot read into its prompt text: a name ending in
    [.csv] (any case) goes to [workbook.csv.read], which is given the
    buffer's text instead of a stream and rejects with a [TypeError]; any
    other name goes to [workbook.xlsx.load]. The download from GridFS is
    taken to succeed. *)
Definition file_text (f : file_doc) : res jsstr :=
  if ends_with_ci (f_filename f) (js ".csv") then Throw type_error
  else match xlsx_sheet f with
       | Some ws => Ok (dataset_text (f_filename f) ws)
       | None => Throw (JStr (js "Error"))
       end.

(** [Promise.all(recentFiles.map(...))]: the first failing file's error
    (which rejection comes first depends on timing; the outcome does not). *)
Fixpoint all_texts (fs : list file_doc) : res (list jsstr) :=
  match fs with
  | [] => Ok []
  | f :: r => t <- file_text f ;; ts <- all_texts r ;; Ok (t :: ts)
  end.

(** The handling of the model's answer up to the Excel conversion: the
    exit of the [try] block, or the array [combinedData]. *)
Definition reply_rows (reply : ai_reply) : combine_exit + list json :=
  match reply with
  | AIReject name => inl (ExitThrow name)
  | AIResponse false _ _ => inl ExitApiNotOk
  | AIResponse true ct text =>
      let contentType := match ct with Some c => c | None => [] end in
      if negb (js_includes contentType (js "application/json"))
      then inl (ExitThrow (js "Error")) else
      let responseData :=
        match JSON_parse text with
        | Some v => Some v
        | None =>
            if js_includes text [10] then
              match parseNDJSON (Some (JStr text)) with
              | [] => None
              | nd => Some (JObj [(js "choices",
                         JArr [JObj [(js "message",
                           JObj [(js "content", JStr (JSON_stringify (JArr nd)))])]])])
              end
            else None
        end in
      match responseData with
      | None => inl (ExitThrow (js "SyntaxError"))
      | Some rd =>
          match reply_content rd with
          | Throw e => inl (ExitThrow (err_name e))
          | Ok jsonString =>
              match parseAIResponse (JStr jsonString) with
              | Throw _ => inl (ExitThrow (js "Error"))
              | Ok (JArr rows) => inr rows
              | Ok _ => inl ExitNotArray
              end
          end
      end
  end.

(** The [try] block after the lock is set, for a string [sessionId]: the
    user, the session id, the session collection, the bucket, the request
    start, the times of the file name and of the store, the id GridFS
    assigns, and the model's answer. The database calls are taken to
    succeed. Returns how the block ends, the body of a 200 response, the
    effects and the bucket. *)
Definition combine_try (uid sid : jsstr) (sessions : list session_doc)
    (db : list file_doc) (t_start t_name t_store : Z) (fresh : jsstr)
    (reply : ai_reply) : combine_exit * json * list combine_effect * list file_doc :=
  let '(_, joinType, customPrompt) := combine_prefs sessions sid in
  let files := recent_files db uid sid t_start in
  let fileIds := source_ids files in
  match find_combined db uid sid fileIds with
  | Some f => (ExitReuse, JObj [(js "fileId", JStr (f_id f))], [], db)
  | None =>
      match all_texts files with
      | Throw e => (ExitThrow (err_name e), JNull, [], db)
      | Ok texts =>
          let call := LLMCall texts joinType customPrompt in
          match reply_rows reply with
          | inl exit => (exit, JNull, [call], db)
          | inr rows =>
              match combined_sheet object_keys member rows with
              | Throw _ => (ExitThrow (js "TypeError"), JNull, [call], db)
              | Ok _ =>
                  (ExitStored, JObj [(js "fileId", JStr fresh)], [call; StoreFile fresh],
                   db ++ [{| f_id := fresh;
                             f_filename := js "combined-"
                                           ++ js (NilEmpty.string_of_int (Z.to_int t_name))
                                           ++ js ".xlsx";
                             f_userId := uid; f_sessionId := sid;
                             f_uploadedAt := t_store; f_isCombined := true;
                             f_sourceFileIds := Some fileIds |}])
              end
          end
      end
  end.

(** The handler: whether both environment variables are set, the user
    [auth()] gives, the body ([None] when [request.json()] rejects), the
    locks before the request, and the inputs of [combine_try]. Returns the
    outcome, the body of a 200 response ([null] otherwise; the error
    responses' messages are not modelled), the locks, the effects and the
    bucket after the request. *)
Definition combine_post (env_ok : bool) (userId : option jsstr) (body : option json)
    (locks : list json) (sessions : list session_doc) (db : list file_doc)
    (t_start t_name t_store : Z) (fresh : jsstr) (reply : ai_reply)
  : handler_outcome * json * list json * list combine_effect * list file_doc :=
  let caught (locks : list json) effs db' :=
    let '(o, l) := combine_catch locks in (o, JNull, l, effs, db') in
  if negb env_ok then (Respond 500%Z, JNull, locks, [], db) else
  match userId with
  | None | Some [] => (Respond 401%Z, JNull, locks, [], db)
  | Some uid =>
      match body with
      | None => caught locks [] db
      | Some b =>
          match prop (Some b) (js "sessionId") with
          | Throw _ => caught locks [] db
          | Ok None => (Respond 400%Z, JNull, locks, [], db)
          | Ok (Some sid) =>
              if negb (js_truthy sid) then (Respond 400%Z, JNull, locks, [], db)
              else if lock_has locks sid then (Respond 429%Z, JNull, locks, [], db)
              else
                let locks1 := lock_set locks sid in
                let '(exit, resp, effs, db') :=
                  match sid with
                  | JStr s => combine_try uid s sessions db t_start t_name t_store fresh reply
                  | _ => combine_other uid sid sessions db t_start t_name t_store fresh reply
                  end in
                match exit with
                | ExitReuse | ExitStored =>
                    (Respond 200%Z, resp, lock_delete locks1 sid, effs, db')
                | ExitApiNotOk | ExitNotArray => caught (lock_delete locks1 sid) effs db'
                | ExitThrow _ => caught locks1 effs db'
                end
          end
      end
  end.

End CombineRoute.

(** A model answer whose content is an empty JSON array. *)
Definition ex_combine_reply : ai_reply :=
  AIResponse true (Some (js "application/json"))
    (jq "{~choices~:[{~message~:{~content~:~[]~}}]}").

(* ================================================================== *)
(** * Properties *)

Lemma jsstr_eqb_eq : forall a b, jsstr_eqb a b = true <-> a = b.
Proof.
  induction a as [|x a IH]; destruct b as [|y b]; simpl; split; intro H;
    try discriminate; try reflexivity.
  - apply andb_true_iff in H as [H1 H2]. apply N.eqb_eq in H1.
    apply IH in H2. subst; reflexivity.
  - inversion H; subst. rewrite N.eqb_refl. simpl. apply IH. reflexivity.
Qed.

Lemma jsstr_eqb_refl : forall a, jsstr_eqb a a = true.
Proof. intro a. apply jsstr_eqb_eq. reflexivity. Qed.

Example JSON_parse_obj :
  JSON_parse (jq "{~b~:1}") = Some (JObj [(js "b", JNum 1 0)]).
Proof. reflexivity. Qed.

Example extract_prose :
  extractFirstJsonObj (jq "Sure! {~a~: [1, 2]} done")
  = JObj [(js "a", JArr [JNum 1 0; JNum 2 0])].
Proof. reflexivity. Qed.

Example extract_repaired :
  extractFirstJsonObj (js "{name: 'Bob', }")
  = JObj [(js "name", JStr (js "Bob"))].
Proof. reflexivity. Qed.

Example extract_none : extractFirstJsonObj (js "no json here") = JNull.
Proof. reflexivity. Qed.

(** C1 (code_bug). The scan of [extractFirstJsonObj] always slices its
    candidate from the first [{]: after the unparseable object [{a}] the
    later object [{"b":1}] is never tried on its own, although the code says
    it continues scanning because a later object may parse. On the text
    [{a} {"b":1}] it returns [null] while [{"b":1}], a balanced object
    substring, parses to [{b: 1}]. *)
Theorem extractFirstJsonObj_misses_later_object :
  extractFirstJsonObj (jq "{a} {~b~:1}") = JNull
  /\ JSON_parse (jq "{~b~:1}") = Some (JObj [(js "b", JNum 1 0)])
  /\ tryParseJsonWithRepairs (jq "{a}") = JNull.
Proof. vm_compute. repeat split. Qed.

(** ** The pipeline orchestrator *)

Open Scope nat_scope.

Lemma finalize_no_step_fetch : forall p now st,
  forallb (fun e => negb (is_step_fetch e)) (finalizeAndReturn p now st) = true.
Proof.
  intros p now st. unfold finalizeAndReturn.
  destruct (final_results p now st); [|reflexivity].
  destruct (runId_truthy p); reflexivity.
Qed.

Lemma nth_error_skipn_cons : forall (A : Type) (l : list A) i x,
  nth_error l i = Some x -> skipn i l = x :: skipn (S i) l.
Proof.
  intros A l. induction l as [|y l IH]; intros i x H.
  - destruct i; discriminate.
  - destruct i; simpl in *.
    + inversion H; reflexivity.
    + apply IH in H. rewrite H. destruct l; reflexivity.
Qed.

Lemma nth_error_margin_steps : forall i,
  i < List.length MARGIN_STEPS -> exists s, nth_error MARGIN_STEPS i = Some s.
Proof.
  intros i H. destruct (nth_error MARGIN_STEPS i) eqn:E; [eauto|].
  apply nth_error_None in E. lia.
Qed.

(** The requests of a run started at step [i]: the steps from [i] on, in
    order, up to and including the first one whose response does not let it
    succeed; the final record is assembled only when all of them succeed. *)
Lemma run_steps_events : forall p now n i st rs,
  i + n = List.length MARGIN_STEPS ->
  let evs := snd (fst (run_steps p now n i st rs)) in
  (n <= ok_prefix rs ->
     exists st', evs = map (step_request p) (skipn i MARGIN_STEPS)
                       ++ finalizeAndReturn p now st')
  /\ (ok_prefix rs < n ->
        evs = map (step_request p) (firstn (S (ok_prefix rs)) (skipn i MARGIN_STEPS))).
Proof.
  intros p now n. induction n as [|n IH]; intros i st rs Hlen evs.
  - subst evs. simpl. rewrite Nat.add_0_r in Hlen. subst i.
    split; [intros _; exists st; reflexivity | intro H; lia].
  - destruct (nth_error_margin_steps i) as [step Hstep]; [lia|].
    assert (Hsk := nth_error_skipn_cons _ _ _ _ Hstep).
    subst evs. simpl. rewrite Hstep. rewrite Hsk.
    destruct rs as [|r rs'].
    + simpl. split; [intro H; lia | intros _; reflexivity].
    + simpl. unfold step_succeeds.
      destruct (step_outcome r) as [msg|result] eqn:Hout.
      * simpl. split; [intro H; lia | intros _; reflexivity].
      * match goal with
        | |- context [run_steps p now n (S i) ?st2 rs'] =>
            specialize (IH (S i) st2 rs' ltac:(lia));
            destruct (run_steps p now n (S i) st2 rs') as [[st3 evs'] rs''] eqn:R
        end.
        simpl in IH |- *. destruct IH as [IH1 IH2]. split.
        -- intro H. destruct (IH1 ltac:(lia)) as [st' E]. exists st'.
           rewrite E. reflexivity.
        -- intro H. rewrite IH2 by lia. reflexivity.
Qed.

Lemma step_succeeds_ok : forall r,
  step_succeeds r = true -> exists resp, r = Some resp /\ resp_ok resp = true.
Proof.
  intros [resp|] H; unfold step_succeeds, step_outcome in H; [|discriminate].
  exists resp. split; [reflexivity|].
  destruct (resp_ok resp); [reflexivity|discriminate].
Qed.

Lemma ok_prefix_nth : forall rs k,
  k < ok_prefix rs ->
  exists r, nth_error rs k = Some r /\ step_succeeds r = true.
Proof.
  induction rs as [|r rs IH]; intros k H; simpl in H; [lia|].
  destruct (step_succeeds r) eqn:E; [|lia].
  destruct k as [|k]; simpl; [eauto|]. apply IH. lia.
Qed.

Lemma step_request_margin_inj : forall p i j si sj,
  nth_error MARGIN_STEPS i = Some si -> nth_error MARGIN_STEPS j = Some sj ->
  step_request p si = step_request p sj -> i = j.
Proof.
  intros p i j si sj Hi Hj E.
  unfold step_request in E. injection E as E _.
  destruct i as [|[|[|[|[|i]]]]]; simpl in Hi;
    try (destruct i; discriminate); injection Hi as <-;
  destruct j as [|[|[|[|[|j]]]]]; simpl in Hj;
    try (destruct j; discriminate); injection Hj as <-;
  simpl in E; try reflexivity; discriminate.
Qed.

Lemma in_map_firstn_index : forall p m x,
  In x (map (step_request p) (firstn m MARGIN_STEPS)) ->
  forall k s, nth_error MARGIN_STEPS k = Some s -> x = step_request p s -> k < m.
Proof.
  intros p m x Hin k s Hk ->.
  apply in_map_iff in Hin as [s' [E Hs']].
  apply In_nth_error in Hs' as [j Hj].
  assert (j < m).
  { destruct (Nat.lt_ge_cases j m) as [?|Hge]; [assumption|].
    rewrite nth_error_firstn in Hj. destruct (Nat.ltb_spec j m); [lia|discriminate]. }
  rewrite nth_error_firstn in Hj. destruct (Nat.ltb_spec j m); [|discriminate].
  assert (j = k) by (eapply step_request_margin_inj; eauto). lia.
Qed.


Lemma upd_nth_length : forall (A : Type) (l : list A) i x,
  List.length (upd_nth l i x) = List.length l.
Proof. intros A l. induction l as [|y l IH]; intros [|i] x; simpl; auto. Qed.

Lemma nth_error_upd_nth_same : forall (A : Type) (l : list A) i x,
  i < List.length l -> nth_error (upd_nth l i x) i = Some x.
Proof.
  intros A l. induction l as [|y l IH]; intros [|i] x H; simpl in *; try lia;
    auto; apply IH; lia.
Qed.

Lemma nth_error_upd_nth_other : forall (A : Type) (l : list A) i j x,
  i <> j -> nth_error (upd_nth l i x) j = nth_error l j.
Proof.
  intros A l. induction l as [|y l IH]; intros [|i] [|j] x H; simpl; auto;
    try lia; apply IH; lia.
Qed.

Lemma margin_step_ids_distinct : forall i j si sj,
  nth_error MARGIN_STEPS i = Some si -> nth_error MARGIN_STEPS j = Some sj ->
  step_id si = step_id sj -> i = j.
Proof.
  intros i j si sj Hi Hj E.
  destruct i as [|[|[|[|[|i]]]]]; simpl in Hi;
    try (destruct i; discriminate); injection Hi as <-;
  destruct j as [|[|[|[|[|j]]]]]; simpl in Hj;
    try (destruct j; discriminate); injection Hj as <-;
  simpl in E; try reflexivity; discriminate.
Qed.

Lemma obj_lookup_set_other : forall (A : Type) (o : list (jsstr * A)) k k' v,
  k <> k' -> obj_lookup (obj_set o k v) k' = obj_lookup o k'.
Proof.
  intros A o k k' v H.
  induction o as [|[k0 v0] o IH]; simpl.
  - destruct (jsstr_eqb k' k) eqn:E; [apply jsstr_eqb_eq in E; congruence|reflexivity].
  - destruct (jsstr_eqb k k0) eqn:E0; simpl.
    + apply jsstr_eqb_eq in E0. subst k0.
      destruct (jsstr_eqb k' k) eqn:E'; [apply jsstr_eqb_eq in E'; congruence|]. reflexivity.
    + destruct (jsstr_eqb k' k0) eqn:E; [reflexivity|]. exact IH.
Qed.

Ltac split_run_steps IH :=
  match goal with
  | |- context [run_steps ?p ?now ?n (S ?i) ?st2 ?rs'] =>
      specialize (IH (S i) st2 rs');
      destruct (run_steps p now n (S i) st2 rs') as [[?st3 ?evs'] ?rs''] eqn:?R
  end.

(** A run started at step [i] leaves the statuses of the earlier steps and the
    accumulated results of the steps before [i] as they were, and requests only
    steps from [i] on. *)
Lemma run_steps_frame : forall p now n i st rs,
  let out := run_steps p now n i st rs in
  (forall j, j < i -> nth_error (stepResults (fst (fst out))) j
                      = nth_error (stepResults st) j)
  /\ (forall key, (forall m s, i <= m -> nth_error MARGIN_STEPS m = Some s ->
                               step_id s <> key) ->
        obj_lookup (accum (fst (fst out))) key = obj_lookup (accum st) key)
  /\ (forall e, In e (snd (fst out)) -> is_step_fetch e = true ->
        exists m s, i <= m /\ nth_error MARGIN_STEPS m = Some s
                    /\ e = step_request p s).
Proof.
  intros p now n. induction n as [|n IH]; intros i st rs out; subst out.
  - simpl. split; [auto|split; [auto|]].
    intros e He Hf. pose proof (finalize_no_step_fetch p now st) as F.
    rewrite forallb_forall in F. apply F in He. rewrite Hf in He. discriminate.
  - simpl. destruct (nth_error MARGIN_STEPS i) as [step|] eqn:Hs.
    + destruct rs as [|r rs'].
      * simpl. split; [|split].
        -- intros j Hj. apply nth_error_upd_nth_other. lia.
        -- auto.
        -- intros e [<-|[]] _. exists i, step. auto.
      * destruct (step_outcome r) as [msg|result] eqn:Ho.
        -- simpl. split; [|split].
           ++ intros j Hj. unfold set_status. simpl.
              rewrite !nth_error_upd_nth_other by lia. reflexivity.
           ++ intros key Hkey. unfold set_status. simpl.
              destruct (step_stored r); [|reflexivity].
              apply obj_lookup_set_other. apply (Hkey i); auto.
           ++ intros e [<-|[]] _. exists i, step. auto.
        -- split_run_steps IH. simpl in IH |- *. destruct IH as [I1 [I2 I3]].
           split; [|split].
           ++ intros j Hj. rewrite I1 by lia. simpl.
              rewrite !nth_error_upd_nth_other by lia. reflexivity.
           ++ intros key Hkey. rewrite I2.
              ** simpl. apply obj_lookup_set_other. apply (Hkey i); auto.
              ** intros m s Hm Hms. apply (Hkey m); auto. lia.
           ++ intros e [<-|He] Hf; [exists i, step; auto|].
              destruct (I3 e He Hf) as [m [s [Hm [Hms ->]]]].
              exists m, s. split; [lia|auto].
    + simpl. split; [auto|split; [auto|]].
      intros e He Hf. pose proof (finalize_no_step_fetch p now st) as F.
      rewrite forallb_forall in F. apply F in He. rewrite Hf in He. discriminate.
Qed.

(** A run started at step [i] with the earlier steps succeeded and the others
    pending ends in a state of the shape [loader_inv]. *)
Lemma run_steps_inv : forall p now n i st rs,
  i + n = List.length MARGIN_STEPS -> run_ready i st ->
  loader_inv (fst (fst (run_steps p now n i st rs))).
Proof.
  intros p now n. induction n as [|n IH]; intros i st rs Hn [Hlen [Hsucc Hpend]];
    unfold loader_inv, run_ready in *; change (List.length MARGIN_STEPS) with 5 in *.
  - simpl. exists i. rewrite Nat.add_0_r in Hn.
    refine (conj _ (conj _ (conj _ (conj _ _)))); [lia|exact Hlen|exact Hsucc| |];
      intros; lia.
  - simpl. destruct (nth_error_margin_steps i) as [step Hs]; [simpl; lia|]. rewrite Hs.
    assert (Hi : i < List.length (stepResults st)) by (rewrite Hlen; lia).
    destruct rs as [|r rs'].
    + simpl. exists i. unfold stat in *; simpl.
      refine (conj _ (conj _ (conj _ (conj _ _)))).
      * lia.
      * rewrite upd_nth_length. auto.
      * intros j Hj. rewrite nth_error_upd_nth_other by lia. auto.
      * intros j Hj. rewrite nth_error_upd_nth_other by lia. apply Hpend. lia.
      * intros _. rewrite nth_error_upd_nth_same by auto. discriminate.
    + destruct (step_outcome r) as [msg|result] eqn:Ho.
      * simpl. exists i. unfold stat in *; simpl.
        refine (conj _ (conj _ (conj _ (conj _ _)))).
        -- lia.
        -- rewrite !upd_nth_length. auto.
        -- intros j Hj. rewrite !nth_error_upd_nth_other by lia. auto.
        -- intros j Hj. rewrite !nth_error_upd_nth_other by lia. apply Hpend. lia.
        -- intros _. rewrite nth_error_upd_nth_same by (rewrite upd_nth_length; auto).
           discriminate.
      * split_run_steps IH. simpl. apply IH; [lia|].
        unfold run_ready, stat in *; simpl.
        refine (conj _ (conj _ _)).
        -- rewrite !upd_nth_length. auto.
        -- intros j Hj. destruct (Nat.eq_dec j i) as [->|Hne].
           ++ rewrite nth_error_upd_nth_same by (rewrite upd_nth_length; auto). reflexivity.
           ++ rewrite !nth_error_upd_nth_other by lia. apply Hsucc. lia.
        -- intros j Hj. rewrite !nth_error_upd_nth_other by lia. apply Hpend. lia.
Qed.

Lemma first_error_status : forall l f,
  first_error l = Some f -> exists r, nth_error l f = Some r /\ sr_status r = Error.
Proof.
  induction l as [|r l IH]; intros f H; simpl in H; [discriminate|].
  destruct (sr_status r) eqn:E;
    try (inversion H; subst; exists r; auto; fail);
    destruct (first_error l) as [f'|] eqn:E'; simpl in H; inversion H; subst;
    apply IH; reflexivity.
Qed.

Lemma init_state_ready : run_ready 0 init_state.
Proof.
  unfold run_ready, stat. simpl. refine (conj eq_refl (conj _ _)); [intros; lia|].
  intros j Hj. destruct j as [|[|[|[|[|j]]]]]; simpl; auto; lia.
Qed.

Lemma loader_inv_first_error : forall st f,
  loader_inv st -> first_error (stepResults st) = Some f ->
  exists k, f = k /\ k < List.length MARGIN_STEPS
  /\ List.length (stepResults st) = List.length MARGIN_STEPS
  /\ (forall j, j < k -> stat st j = Some Success)
  /\ (forall j, k < j < List.length MARGIN_STEPS -> stat st j = Some Pending).
Proof.
  intros st f [k [Hk [Hlen [Hsucc [Hpend _]]]]] Hf.
  destruct (first_error_status _ _ Hf) as [r [Hr Hst]].
  assert (Hflt : f < List.length MARGIN_STEPS).
  { rewrite <- Hlen. apply nth_error_Some. congruence. }
  assert (Hstat : stat st f = Some Error) by (unfold stat; rewrite Hr; simpl; congruence).
  assert (f = k).
  { destruct (Nat.lt_total f k) as [H|[H|H]]; auto.
    - rewrite Hsucc in Hstat by auto. discriminate.
    - rewrite Hpend in Hstat by lia. discriminate. }
  subst f. exists k. auto 6.
Qed.

Lemma reachable_inv : forall p st, reachable p st -> loader_inv st.
Proof.
  intros p st H. induction H as [now rs|st now rs Hr IH].
  - unfold start_run, runStep. apply run_steps_inv; [reflexivity|apply init_state_ready].
  - unfold handleRetry. destruct (first_error (stepResults st)) as [f|] eqn:Hf; [|exact IH].
    destruct (loader_inv_first_error st f IH Hf) as [k [-> [Hk [Hlen [Hsucc Hpend]]]]].
    unfold runStep. apply run_steps_inv; [lia|].
    unfold run_ready, set_status, stat in *; simpl.
    refine (conj _ (conj _ _)).
    + rewrite upd_nth_length. auto.
    + intros j Hj. rewrite nth_error_upd_nth_other by lia. auto.
    + intros j Hj. destruct (Nat.eq_dec j k) as [->|Hne].
      * rewrite nth_error_upd_nth_same by (rewrite Hlen; simpl in *; lia). reflexivity.
      * rewrite nth_error_upd_nth_other by lia. apply Hpend. simpl in *; lia.
Qed.

Lemma run_steps_first_request : forall p now n i st rs s,
  nth_error MARGIN_STEPS i = Some s ->
  exists rest, snd (fst (run_steps p now (S n) i st rs)) = step_request p s :: rest.
Proof.
  intros p now n i st rs s Hs. simpl. rewrite Hs.
  destruct rs as [|r rs']; [eexists; reflexivity|].
  destruct (step_outcome r); [eexists; reflexivity|].
  match goal with
  | |- context [run_steps ?p ?now ?n ?i ?st ?rs] =>
      destruct (run_steps p now n i st rs) as [[? ?] ?]
  end.
  eexists; reflexivity.
Qed.



(** ** The final record and its save *)

Lemma step_outcome_ok : forall r v,
  step_outcome r = inr v ->
  exists resp, r = Some resp /\ resp_ok resp = true
               /\ v = response_result resp /\ v <> JNull.
Proof.
  intros [resp|] v H; simpl in H; [|discriminate].
  destruct (resp_ok resp) eqn:Eok; simpl in H; [|discriminate].
  destruct (response_result resp) eqn:E; inversion H; subst;
    exists resp; repeat split; auto; discriminate.
Qed.

(** A run from step [i] whose responses all let their steps succeed requests
    the remaining steps, then finalizes on its last state, in which every
    remaining step's result is stored under the step's id. *)
Lemma run_steps_complete : forall p now n i st rs,
  i + n = List.length MARGIN_STEPS -> n <= ok_prefix rs ->
  let out := run_steps p now n i st rs in
  snd (fst out) = map (step_request p) (skipn i MARGIN_STEPS)
                  ++ finalizeAndReturn p now (fst (fst out))
  /\ (forall m s r, i <= m -> nth_error MARGIN_STEPS m = Some s ->
        nth_error rs (m - i) = Some r ->
        exists resp, r = Some resp /\ resp_ok resp = true
          /\ response_result resp <> JNull
          /\ obj_lookup (accum (fst (fst out))) (step_id s)
             = Some (response_result resp)).
Proof.
  intros p now n. induction n as [|n IH]; intros i st rs Hn Hok out; subst out.
  - rewrite Nat.add_0_r in Hn. subst i. split; [reflexivity|].
    intros m s r Hm Hs.
    assert (Hn : nth_error MARGIN_STEPS m = None) by (apply nth_error_None; lia).
    congruence.
  - destruct (nth_error_margin_steps i) as [step Hstep]; [lia|].
    assert (Hsk := nth_error_skipn_cons _ _ _ _ Hstep).
    destruct rs as [|r0 rs']; [simpl in Hok; lia|].
    simpl in Hok. destruct (step_succeeds r0) eqn:Hsucc; [|lia].
    unfold step_succeeds in Hsucc.
    destruct (step_outcome r0) as [msg|result] eqn:Ho; [discriminate|].
    destruct (step_outcome_ok _ _ Ho) as [resp0 [-> [Hok0 [-> Hnn]]]].
    cbn [run_steps]. rewrite Hstep, Ho.
    set (st2 := {| stepResults := _; accum := _; currentStep := i |}).
    pose proof (IH (S i) st2 rs' ltac:(lia) ltac:(lia)) as [E1 E2].
    pose proof (run_steps_frame p now n (S i) st2 rs') as [_ [F2 _]].
    destruct (run_steps p now n (S i) st2 rs') as [[st3 evs'] rs''] eqn:R.
    simpl in E1, E2, F2 |- *. rewrite Hsk. split; [simpl; f_equal; exact E1|].
    intros m s r Hm Hs Hr.
    destruct (Nat.eq_dec m i) as [->|Hne].
    + rewrite Hstep in Hs. injection Hs as <-. rewrite Nat.sub_diag in Hr.
      injection Hr as <-. exists resp0. repeat split; auto.
      rewrite F2.
      * subst st2. simpl. clear. induction (accum st) as [|[k v] a IHa]; simpl.
        -- rewrite jsstr_eqb_refl. reflexivity.
        -- destruct (jsstr_eqb (step_id step) k) eqn:E; simpl.
           ++ apply jsstr_eqb_eq in E. subst k. rewrite jsstr_eqb_refl. reflexivity.
           ++ rewrite E. exact IHa.
      * intros m' s' Hm' Hs' E.
        assert (m' = i) by (eapply margin_step_ids_distinct; eauto). lia.
    + apply (E2 m s r); auto; [lia|].
      replace (m - S i) with (m - i - 1) by lia.
      replace (m - i) with (S (m - i - 1)) in Hr by lia. exact Hr.
Qed.

Lemma final_results_obj : forall p now st fr,
  final_results p now st = Ok fr -> exists kvs, fr = JObj kvs.
Proof.
  intros p now st fr H. unfold final_results in H.
  repeat match type of H with
         | context [match ?x with Ok _ => _ | Throw _ => _ end] =>
             destruct x; [|discriminate]
         end.
  inversion H. eauto.
Qed.

Lemma final_results_fields : forall p now st fr k s v,
  final_results p now st = Ok fr -> nth_error MARGIN_STEPS k = Some s ->
  obj_lookup (accum st) (step_id s) = Some v -> v <> JNull ->
  get_prop fr (step_id s) = Some v.
Proof.
  intros p now st fr k s v H Hs Hv Hnn. unfold final_results in H.
  repeat match type of H with
         | context [match ?x with Ok _ => _ | Throw _ => _ end] =>
             destruct x; [|discriminate]
         end.
  inversion H; subst fr. clear H.
  destruct k as [|[|[|[|[|k]]]]]; simpl in Hs;
    try (destruct k; discriminate); injection Hs as <-; simpl in Hv |- *;
    unfold acc_get; simpl; rewrite Hv; destruct v; try reflexivity; congruence.
Qed.

Lemma res_map_null_throws : forall f l,
  (exists e, f JNull = Throw e) -> In JNull l -> exists e, res_map f l = Throw e.
Proof.
  intros f l [e0 Hf]. induction l as [|x r IH]; intros Hin; [destruct Hin|].
  simpl. destruct Hin as [->|Hin].
  - rewrite Hf. eauto.
  - destruct (f x) as [y|e]; [|eauto].
    destruct (IH Hin) as [e He]. rewrite He. eauto.
Qed.



(** ** The combine route *)

(** C6 (code bug). The combine route reuses a combined file only when one
    records, for the same user and session, the sorted ids of the session's
    files as of the request start; it then answers 200 with that file's id,
    releases the lock, calls no model and stores nothing. But those files
    include the combined files stored by earlier requests: after a user
    uploads "a.xlsx" (id "a") in session "s" and combines once (storing "c"
    with source ids "a"), a second combine with no new upload sees the
    files "c" and "a", finds no combined file with source ids "a,c", calls
    the model again and stores a new file "d". *)
Theorem combine_repeat_not_reused :
  (forall xlsx_sheet JSON_stringify object_keys member combine_other
          uid s b locks sessions db t0 t1 t2 fresh reply f,
     uid <> [] -> s <> [] -> get_prop b (js "sessionId") = Some (JStr s) ->
     lock_has locks (JStr s) = false ->
     find_combined db uid s (source_ids (recent_files db uid s t0)) = Some f ->
     combine_post xlsx_sheet JSON_stringify object_keys member combine_other
       true (Some uid) (Some b) locks sessions db t0 t1 t2 fresh reply
     = (Respond 200%Z, JObj [(js "fileId", JStr (f_id f))],
        lock_delete (lock_set locks (JStr s)) (JStr s), [], db))
  /\ (forall JSON_stringify object_keys member combine_other (ws : worksheet),
     let sheet := fun _ : file_doc => Some ws in
     let body := JObj [(js "sessionId", JStr (js "s"))] in
     let '(st0, db1) := upload_post (Some (js "u")) (Some (FormFile (js "a.xlsx")))
                          (Some (js "s")) 1 (js "a") [] in
     let '(o1, r1, l1, e1, db2) :=
       combine_post sheet JSON_stringify object_keys member combine_other
         true (Some (js "u")) (Some body) [] [] db1 2 3 3 (js "c") ex_combine_reply in
     let '(o2, r2, l2, e2, db3) :=
       combine_post sheet JSON_stringify object_keys member combine_other
         true (Some (js "u")) (Some body) l1 [] db2 4 5 5 (js "d") ex_combine_reply in
     st0 = 200%Z
     /\ o1 = Respond 200%Z /\ r1 = JObj [(js "fileId", JStr (js "c"))]
     /\ e1 = [LLMCall [dataset_text (js "a.xlsx") ws] (JStr []) (JStr []);
              StoreFile (js "c")]
     /\ find_combined db2 (js "u") (js "s") (js "a") <> None
     /\ source_ids (recent_files db2 (js "u") (js "s") 4) = js "a,c"
     /\ o2 = Respond 200%Z /\ r2 = JObj [(js "fileId", JStr (js "d"))]
     /\ e2 = [LLMCall [dataset_text (js "combined-3.xlsx") ws;
                       dataset_text (js "a.xlsx") ws] (JStr []) (JStr []);
              StoreFile (js "d")]
     /\ List.length db3 = 3%nat /\ l2 = []).
Proof.
  split.
  - intros xlsx_sheet JSON_stringify object_keys member combine_other
      uid s b locks sessions db t0 t1 t2 fresh reply f Huid Hs Hb Hl Hf.
    unfold combine_post. simpl negb. cbv iota.
    destruct uid as [|u uid]; [congruence|].
    destruct b as [| | | | |kvs]; try discriminate Hb.
    simpl prop. simpl in Hb. rewrite Hb.
    destruct s as [|c s]; [congruence|]. simpl js_truthy. simpl negb. cbv iota.
    rewrite Hl. unfold combine_try.
    destruct (combine_prefs sessions (c :: s)) as [[? ?] ?].
    rewrite Hf. reflexivity.
  - intros JSON_stringify object_keys member combine_other ws.
    vm_compute. repeat split; discriminate.
Qed.

Lemma combine_repeat_not_reused_witness :
  let fa := {| f_id := js "a"; f_filename := js "a.xlsx"; f_userId := js "u";
               f_sessionId := js "s"; f_uploadedAt := 1; f_isCombined := false;
               f_sourceFileIds := None |} in
  let fc := {| f_id := js "c"; f_filename := js "combined-3.xlsx"; f_userId := js "u";
               f_sessionId := js "s"; f_uploadedAt := 10; f_isCombined := true;
               f_sourceFileIds := Some (js "a") |} in
  combine_post (fun _ => None) (fun _ => []) (fun _ => Ok []) (fun _ _ => Ok None)
    (fun _ _ _ db _ _ _ _ _ => (ExitThrow [], JNull, [], db))
    true (Some (js "u")) (Some (JObj [(js "sessionId", JStr (js "s"))])) [] []
    [fa; fc] 5 6 6 (js "d") ex_combine_reply
  = (Respond 200%Z, JObj [(js "fileId", JStr (js "c"))],
     lock_delete (lock_set [] (JStr (js "s"))) (JStr (js "s")), [], [fa; fc]).
Proof.
  intros fa fc.
  apply (proj1 combine_repeat_not_reused _ _ _ _ _ (js "u") (js "s")
           (JObj [(js "sessionId", JStr (js "s"))]) [] [] [fa; fc] 5%Z 6%Z 6%Z (js "d")
           ex_combine_reply fc).
  - discriminate.
  - discriminate.
  - reflexivity.
  - reflexivity.
  - vm_compute. reflexivity.
Defined.

(** ** The cost step's fallback *)

Lemma worst_performers_ok : forall rows i,
  Forall (fun r => r <> JNull) rows ->
  exists wp, res_list (mapi_from worst_performer i rows) = Ok wp
             /\ List.length wp = List.length rows
             /\ (forall j e, nth_error wp j = Some e ->
                   get_prop e (js "margin_pct") = Some (jint (15 - Z.of_nat (i + j) * 3)%Z)
                   /\ get_prop e (js "revenue_impact") = Some (jint (1000 + Z.of_nat (i + j) * 500)%Z)
                   /\ get_prop e (js "cost") = Some (jint (80 + Z.of_nat (i + j) * 10)%Z)
                   /\ get_prop e (js "net_price") = Some (jint (95 + Z.of_nat (i + j) * 5)%Z)).
Proof.
  induction rows as [|row rows IH]; intros i H.
  - exists []. split; [reflexivity|split; [reflexivity|]].
    intros [|j] x He; discriminate.
  - inversion H as [|? ? Hrow Hrows]; subst.
    destruct (IH (S i) Hrows) as [wp [Hwp [Hlen Hent]]].
    simpl. unfold worst_performer at 1.
    destruct row as [|b|m ex|s|l|kvs]; try congruence; simpl; rewrite Hwp;
      eexists; (split; [reflexivity|]); (split; [simpl; f_equal; exact Hlen|]);
      (intros [|j] x He;
       [ injection He as <-; rewrite Nat.add_0_r; repeat split; reflexivity
       | simpl in He; destruct (Hent j x He) as [A [B [C D]]];
         replace (i + S j)%nat with (S i + j)%nat by lia; auto ]).
Qed.

Lemma Forall_firstn_nonnull : forall (P : json -> Prop) n l,
  Forall P l -> Forall P (firstn n l).
Proof.
  intros P n l H. revert n. induction H as [|x l Hx Hl IH]; intros [|n]; simpl; auto.
Qed.

Lemma find_upsert_cost_analysis : forall db fid uid raw parsed now,
  exists d, find_cost_analysis (upsert_cost_analysis db fid uid raw parsed now) fid uid = Some d
            /\ an_analysis d = raw /\ an_parsed d = parsed.
Proof.
  intros db fid uid raw parsed now. induction db as [|d db IH]; simpl.
  - rewrite !jsstr_eqb_refl. simpl. eexists; repeat split.
  - destruct (jsstr_eqb (an_fileId d) fid && jsstr_eqb (an_userId d) uid) eqn:E; simpl.
    + rewrite !jsstr_eqb_refl. simpl. eexists; repeat split.
    + rewrite E. exact IH.
Qed.



Lemma find_owned_not_owned : forall files id uid,
  not_owned files id uid -> find_owned files id uid = None.
Proof.
  induction files as [|f r IH]; intros id uid H; [reflexivity|]. simpl.
  destruct (jsstr_eqb (f_id f) id) eqn:E1; simpl.
  - destruct (jsstr_eqb (f_userId f) uid) eqn:E2.
    + apply jsstr_eqb_eq in E1, E2. exfalso. apply (H f); simpl; auto.
    + apply IH. intros g Hg. apply H. simpl. auto.
  - apply IH. intros g Hg. apply H. simpl. auto.
Qed.




Lemma obj_lookup_set_same : forall (A : Type) (o : list (jsstr * A)) k v,
  obj_lookup (obj_set o k v) k = Some v.
Proof.
  intros A o k v. induction o as [|[k0 v0] o IH]; simpl.
  - rewrite jsstr_eqb_refl. reflexivity.
  - destruct (jsstr_eqb k k0) eqn:E; simpl.
    + apply jsstr_eqb_eq in E. subst k0. rewrite jsstr_eqb_refl. reflexivity.
    + rewrite E. exact IH.
Qed.

Lemma obj_lookup_app : forall (A : Type) (l1 l2 : list (jsstr * A)) k,
  obj_lookup (l1 ++ l2) k =
  match obj_lookup l1 k with Some v => Some v | None => obj_lookup l2 k end.
Proof.
  intros A l1 l2 k. induction l1 as [|[k0 v0] l1 IH]; simpl; [reflexivity|].
  destruct (jsstr_eqb k k0); [reflexivity|exact IH].
Qed.

Lemma obj_lookup_none : forall (A : Type) (l : list (jsstr * A)) k,
  obj_lookup l k = None <-> ~ In k (map fst l).
Proof.
  intros A l k. induction l as [|[k0 v0] l IH]; simpl; [tauto|].
  destruct (jsstr_eqb k k0) eqn:E.
  - apply jsstr_eqb_eq in E. subst k0. split; [discriminate|tauto].
  - rewrite IH. split.
    + intros H [H'|H']; [|tauto]. subst k0. rewrite jsstr_eqb_refl in E. discriminate.
    + tauto.
Qed.

Lemma obj_lookup_rev : forall (A : Type) (l : list (jsstr * A)) k,
  NoDup (map fst l) -> obj_lookup (rev l) k = obj_lookup l k.
Proof.
  intros A l k. induction l as [|[k0 v0] l IH]; simpl; intros Hn; [reflexivity|].
  inversion Hn as [|? ? Hk Hn']; subst.
  rewrite obj_lookup_app, IH by exact Hn'. simpl.
  destruct (jsstr_eqb k k0) eqn:E.
  - apply jsstr_eqb_eq in E. subst k0.
    rewrite (proj2 (obj_lookup_none _ l k) Hk). reflexivity.
  - destruct (obj_lookup l k); reflexivity.
Qed.

Lemma obj_lookup_set_fields : forall fields d k,
  obj_lookup (set_fields d fields) k =
  match obj_lookup (rev fields) k with Some v => Some v | None => obj_lookup d k end.
Proof.
  unfold set_fields. induction fields as [|[k0 v0] r IH]; intros d k; simpl; [reflexivity|].
  rewrite IH, obj_lookup_app. simpl.
  destruct (obj_lookup (rev r) k); [reflexivity|].
  destruct (jsstr_eqb k k0) eqn:E.
  - apply jsstr_eqb_eq in E. subst k0. apply obj_lookup_set_same.
  - apply obj_lookup_set_other. intros ->. rewrite jsstr_eqb_refl in E. discriminate.
Qed.

Lemma lookup_sessionId_set_fields : forall d fields,
  ~ In (js "sessionId") (map fst fields) ->
  obj_lookup (set_fields d fields) (js "sessionId") = obj_lookup d (js "sessionId").
Proof.
  intros d fields H. rewrite obj_lookup_set_fields.
  rewrite (proj2 (obj_lookup_none _ _ _)); [reflexivity|].
  rewrite map_rev, <- in_rev. exact H.
Qed.

Lemma apply_set_plain : forall set_other d fields,
  forallb plain_field (map fst fields) = true ->
  apply_set set_other d fields = Some (set_fields d fields).
Proof. intros set_other d fields H. unfold apply_set. rewrite H. reflexivity. Qed.

(** Saving plain fields without a [sessionId] under a string session id
    updates the document the combine route finds for it, or inserts one
    that it then finds. *)
Lemma find_session_upsert : forall sid_match sid_seed set_other store s fields,
  forallb plain_field (map fst fields) = true ->
  ~ In (js "sessionId") (map fst fields) ->
  exists store',
    session_upsert sid_match sid_seed set_other store (JStr s) fields = Some store'
    /\ find_session store' s =
       Some (set_fields (match find_session store s with
                         | Some d => d | None => [(js "sessionId", JStr s)] end) fields).
Proof.
  intros sm ss so store s fields Hp Hs. induction store as [|d r IH]; simpl.
  - rewrite apply_set_plain by exact Hp. eexists. split; [reflexivity|]. simpl.
    rewrite lookup_sessionId_set_fields by exact Hs. simpl.
    rewrite jsstr_eqb_refl. reflexivity.
  - destruct (str_filter_match s (obj_lookup d (js "sessionId"))) eqn:Ed.
    + rewrite apply_set_plain by exact Hp. eexists. split; [reflexivity|]. simpl.
      rewrite lookup_sessionId_set_fields, Ed by exact Hs. reflexivity.
    + destruct IH as [r' [Hr' Hf]]. rewrite Hr'. eexists. split; [reflexivity|].
      simpl. rewrite Ed. exact Hf.
Qed.

Lemma save_fields_no_sessionId : forall (kvs : list (jsstr * json)) now,
  ~ In (js "sessionId") (map fst kvs) ->
  ~ In (js "sessionId") (map fst (kvs ++ [(js "updatedAt", JStr now)])).
Proof.
  intros kvs now H. rewrite map_app, in_app_iff. simpl.
  intros [H'|[H'|[]]]; [exact (H H')|discriminate H'].
Qed.

Lemma save_fields_plain : forall (kvs : list (jsstr * json)) now,
  forallb plain_field (map fst kvs) = true ->
  forallb plain_field (map fst (kvs ++ [(js "updatedAt", JStr now)])) = true.
Proof.
  intros kvs now H. rewrite map_app, forallb_app, H. reflexivity.
Qed.

Lemma session_field_after_save : forall (kvs : list (jsstr * json)) d now k,
  NoDup (map fst kvs) ->
  js k <> js "updatedAt" -> js k <> js "sessionId" ->
  session_field (Some (set_fields (match d with
                                   | Some d => d
                                   | None => [(js "sessionId", JStr [])]
                                   end) (kvs ++ [(js "updatedAt", JStr now)]))) k =
  match obj_lookup kvs (js k) with
  | Some v => Some v
  | None => session_field d k
  end.
Proof.
  intros kvs d now k Hn Hu Hi.
  unfold session_field. rewrite obj_lookup_set_fields.
  rewrite rev_app_distr. simpl.
  destruct (jsstr_eqb (js k) (js "updatedAt")) eqn:E;
    [apply jsstr_eqb_eq in E; contradiction|].
  rewrite obj_lookup_rev by exact Hn.
  destruct (obj_lookup kvs (js k)); [reflexivity|].
  destruct d; [reflexivity|]. simpl.
  destruct (jsstr_eqb (js k) (js "sessionId")) eqn:E';
    [apply jsstr_eqb_eq in E'; contradiction|reflexivity].
Qed.

Lemma session_field_after_save_s : forall (kvs : list (jsstr * json)) d s now k,
  NoDup (map fst kvs) ->
  js k <> js "updatedAt" -> js k <> js "sessionId" ->
  session_field (Some (set_fields (match d with
                                   | Some d => d
                                   | None => [(js "sessionId", JStr s)]
                                   end) (kvs ++ [(js "updatedAt", JStr now)]))) k =
  match obj_lookup kvs (js k) with
  | Some v => Some v
  | None => session_field d k
  end.
Proof.
  intros kvs d s now k Hn Hu Hi.
  unfold session_field. rewrite obj_lookup_set_fields.
  rewrite rev_app_distr. simpl.
  destruct (jsstr_eqb (js k) (js "updatedAt")) eqn:E;
    [apply jsstr_eqb_eq in E; contradiction|].
  rewrite obj_lookup_rev by exact Hn.
  destruct (obj_lookup kvs (js k)); [reflexivity|].
  destruct d; [reflexivity|]. simpl.
  destruct (jsstr_eqb (js k) (js "sessionId")) eqn:E';
    [apply jsstr_eqb_eq in E'; contradiction|reflexivity].
Qed.




Lemma first_success_none : forall fs c,
  first_success fs c = None <-> Forall (fun f => f c = None) fs.
Proof.
  induction fs as [|f r IH]; intros c; simpl.
  - split; [constructor|reflexivity].
  - destruct (f c) eqn:E.
    + split; [discriminate|]. intros H. inversion H. congruence.
    + rewrite IH. split; [intros H; constructor; assumption|].
      intros H. inversion H. assumption.
Qed.

Lemma parseAIResponse_eq_spec : forall response,
  parseAIResponse response = parseAIResponse_spec response.
Proof.
  intros [| | | s | |]; try reflexivity.
  unfold parseAIResponse, parseAIResponse_spec, parseAIResponse_fallbacks. cbv zeta.
  simpl first_success. unfold wrap_single_attempt.
  destruct (JSON_parse (clean_response s)); [reflexivity|].
  destruct (array_substring_attempt (clean_response s)); [reflexivity|].
  destruct (ndjson_attempt (clean_response s)); [reflexivity|].
  destruct (regex_objects_attempt (clean_response s)); reflexivity.
Qed.

(** C3: [parseAIResponse] is the function the specification describes: a
    non-string throws; when the cleaned text (code fences removed, trimmed)
    is valid JSON its parse is returned; otherwise the result is the first
    fallback that succeeds (array substring with its fixes, NDJSON, the
    object regular expression, the single object wrapped in an array), and
    it throws exactly when every fallback fails. The last fallback never
    succeeds, since it parses the text the first parse rejected. *)
Theorem parseAIResponse_refines_spec :
  (forall response, parseAIResponse response = parseAIResponse_spec response)
  /\ (forall response, (forall s, response <> JStr s) ->
      exists e, parseAIResponse response = Throw e)
  /\ (forall s v, JSON_parse (clean_response s) = Some v ->
      parseAIResponse (JStr s) = Ok v)
  /\ (forall s, JSON_parse (clean_response s) = None -> forall v,
      parseAIResponse (JStr s) = Ok v <->
      first_success parseAIResponse_fallbacks (clean_response s) = Some v)
  /\ (forall s, (exists e, parseAIResponse (JStr s) = Throw e) <->
      JSON_parse (clean_response s) = None
      /\ Forall (fun f => f (clean_response s) = None) parseAIResponse_fallbacks)
  /\ (forall s, JSON_parse (clean_response s) = None ->
      wrap_single_attempt (clean_response s) = None).
Proof.
  refine (conj parseAIResponse_eq_spec (conj _ (conj _ (conj _ (conj _ _))))).
  - intros [| | | s | |] H; try (eexists; reflexivity).
    exfalso. exact (H s eq_refl).
  - intros s v Hp. unfold parseAIResponse. cbv zeta. rewrite Hp. reflexivity.
  - intros s Hp v. rewrite parseAIResponse_eq_spec. unfold parseAIResponse_spec.
    cbv zeta. rewrite Hp.
    destruct (first_success parseAIResponse_fallbacks (clean_response s));
      split; congruence.
  - intros s. rewrite parseAIResponse_eq_spec, <- first_success_none.
    unfold parseAIResponse_spec. cbv zeta.
    destruct (JSON_parse (clean_response s)).
    + split; [intros [e He]; discriminate|intros [H _]; discriminate].
    + destruct (first_success parseAIResponse_fallbacks (clean_response s)).
      * split; [intros [e He]; discriminate|intros [_ H]; discriminate].
      * split; [intros _; split; reflexivity|intros _; eexists; reflexivity].
  - intros s Hp. unfold wrap_single_attempt. rewrite Hp. reflexivity.
Qed.

Lemma parseAIResponse_refines_spec_witness :
  parseAIResponse (JStr (jq "{~a~:1}
{~b~:2}")) = Ok (JArr [JObj [(js "a", JNum 1 0)]; JObj [(js "b", JNum 2 0)]]).
Proof.
  refine (proj2 (proj1 (proj2 (proj2 (proj2 parseAIResponse_refines_spec)))
            (jq "{~a~:1}
{~b~:2}") _ _) _); vm_compute; reflexivity.
Defined.


(* ================================================================== *)
(** * Further properties of the code *)

(** X1: [maskSecret] prints ["N/A"] for a missing, empty or non-string
    secret, and otherwise ["***"] followed by the secret's last
    [min 4 (length)] code units: at most four code units of a secret are
    shown, and a secret of four or fewer is shown whole. *)
Theorem maskSecret_reveals_at_most_last_four : forall secret,
  (maskSecret secret = js "N/A"
   <-> forall s, secret = Some (JStr s) -> s = [])
  /\ (forall s, secret = Some (JStr s) -> s <> [] ->
      exists u t, s = u ++ t
                  /\ maskSecret secret = js "***" ++ t
                  /\ List.length t = Nat.min 4 (List.length s)).
Proof.
  intros secret. split.
  - destruct secret as [[| | | [|c s] | |]|]; simpl;
      try (split; [intros _ s' H; discriminate H|reflexivity]).
    + split; [intros _ s' H; congruence|reflexivity].
    + split; [|intros H; specialize (H _ eq_refl); discriminate H].
      destruct (Nat.leb (List.length s) 3); discriminate.
  - intros s -> Hs. destruct s as [|c s]; [congruence|].
    unfold maskSecret. destruct (Nat.leb (List.length (c :: s)) 4) eqn:E.
    + exists [], (c :: s). apply Nat.leb_le in E.
      split; [reflexivity|split; [reflexivity|]]. lia.
    + apply Nat.leb_gt in E. unfold slice_last.
      exists (firstn (List.length (c :: s) - 4) (c :: s)),
             (skipn (List.length (c :: s) - 4) (c :: s)).
      split; [symmetry; apply firstn_skipn|split; [reflexivity|]].
      rewrite length_skipn. lia.
Qed.

(** Case analysis on the numeric literals of a pattern match in [H]. *)
Ltac destruct_lits H :=
  repeat match type of H with
  | context [match ?p with xI _ => _ | xO _ => _ | xH => _ end] =>
      is_var p; destruct p
  | context [match ?c with N0 => _ | Npos _ => _ end] =>
      is_var c; destruct c
  end.

Lemma parse_members_obj : forall n s acc v r,
  parse_members n s acc = Some (v, r) -> exists kvs, v = JObj kvs.
Proof.
  induction n as [|n IH]; intros s acc v r H; [discriminate|].
  simpl in H.
  destruct (json_skip_ws s) as [|c l]; [discriminate|].
  destruct_lits H; try discriminate.
  destruct (parse_str_chars l) as [[k r1]|]; [|discriminate].
  destruct (json_skip_ws r1) as [|c1 l1]; [discriminate|].
  destruct_lits H; try discriminate.
  destruct (parse_value n (json_skip_ws l1)) as [[v' r3]|]; [|discriminate].
  destruct (json_skip_ws r3) as [|c3 l3]; [discriminate|].
  destruct_lits H; try discriminate; try (eapply IH; exact H).
  injection H as <- _. eauto.
Qed.

Lemma parse_value_brace_obj : forall n r v rest,
  parse_value n (123%N :: r) = Some (v, rest) -> exists kvs, v = JObj kvs.
Proof.
  intros [|n] r v rest H; [discriminate|]. simpl in H.
  destruct (json_skip_ws r) as [|c l]; [eapply parse_members_obj; exact H|].
  destruct_lits H; try (eapply parse_members_obj; exact H).
  injection H as <- _. eauto.
Qed.

Lemma JSON_parse_brace_obj : forall r v,
  JSON_parse (123%N :: r) = Some v -> exists kvs, v = JObj kvs.
Proof.
  intros r v H. unfold JSON_parse in H. simpl json_skip_ws in H.
  destruct (parse_value _ (123%N :: r)) as [[v' r']|] eqn:E; [|discriminate].
  destruct (json_skip_ws r'); [|discriminate]. injection H as <-.
  eapply parse_value_brace_obj; exact E.
Qed.

Lemma drop_ws_app_nonws : forall l c,
  js_ws c = false -> drop_ws (l ++ [c]) = drop_ws l ++ [c].
Proof.
  intros l c Hc. induction l as [|a l IH]; simpl.
  - rewrite Hc. reflexivity.
  - destruct (js_ws a); [exact IH|reflexivity].
Qed.

Lemma js_trim_head : forall c x,
  js_ws c = false -> exists y, js_trim (c :: x) = c :: y.
Proof.
  intros c x Hc. unfold js_trim. simpl drop_ws. rewrite Hc. simpl rev.
  rewrite drop_ws_app_nonws by exact Hc. rewrite rev_app_distr. simpl. eauto.
Qed.

Lemma replace_all_head : forall m c r,
  (forall rep rest, m (c :: r) = Some (rep, rest) -> exists y, rep = c :: y) ->
  exists y, replace_all m (c :: r) = c :: y.
Proof.
  intros m c r Hm. unfold replace_all. simpl.
  destruct (m (c :: r)) as [[rep rest]|] eqn:E; [|eauto].
  destruct (Hm rep rest eq_refl) as [y ->]. simpl. eauto.
Qed.

Lemma re_unquoted_key_brace : forall r rep rest,
  re_unquoted_key (123%N :: r) = Some (rep, rest) -> exists y, rep = 123%N :: y.
Proof.
  intros r rep rest H. simpl in H.
  destruct (take_ws r) as [w r1].
  destruct (take_key r1) as [[|k0 k] r2]; [discriminate|].
  destruct (drop_ws r2) as [|c l]; [discriminate|].
  destruct_lits H; try discriminate.
  injection H as <- _. eauto.
Qed.

(** The repairs keep a leading [{]: [tryParseJsonWithRepairs] of a text
    starting with [{] is [null] or an object. *)
Lemma tryParse_brace_null_or_obj : forall r,
  tryParseJsonWithRepairs (123%N :: r) = JNull
  \/ exists kvs, tryParseJsonWithRepairs (123%N :: r) = JObj kvs.
Proof.
  intros r. unfold tryParseJsonWithRepairs. simpl map.
  destruct (js_trim_head 123%N (map norm_nbsp (map norm_double_quote
              (map norm_single_quote r))) eq_refl) as [y Hy].
  change (norm_nbsp (norm_double_quote (norm_single_quote 123%N))) with 123%N.
  rewrite Hy. cbv zeta.
  match goal with |- context [JSON_parse ?s] =>
    match s with _ :: y => destruct (JSON_parse s) as [v|] eqn:E end end.
  - right. eapply JSON_parse_brace_obj. exact E.
  - destruct (replace_all_head re_trailing_comma 123%N y) as [y1 H1];
      [intros rep rest H; discriminate H|].
    rewrite H1.
    destruct (replace_all_head re_single_quoted 123%N y1) as [y2 H2];
      [intros rep rest H; discriminate H|].
    rewrite H2.
    destruct (replace_all_head re_unquoted_key 123%N y2) as [y3 H3];
      [apply re_unquoted_key_brace|].
    rewrite H3.
    match goal with |- context [JSON_parse ?s] =>
      match s with _ :: y3 => destruct (JSON_parse s) as [v|] eqn:E3 end end;
      [|left; reflexivity].
    right. eapply JSON_parse_brace_obj. exact E3.
Qed.

Lemma index_of_skipn : forall c s i,
  index_of c s = Some i -> exists x, skipn i s = c :: x.
Proof.
  intros c s. induction s as [|a r IH]; intros i H; simpl in H; [discriminate|].
  destruct (N.eqb_spec a c) as [->|Hne].
  - inversion H; subst. exists r. reflexivity.
  - destruct (index_of c r) as [k|] eqn:Ek; [|discriminate].
    inversion H; subst. simpl. apply IH. reflexivity.
Qed.

Lemma brace_span_head : forall s m,
  brace_span s = Some m -> exists x, m = 123%N :: x.
Proof.
  intros s m H. unfold brace_span in H.
  destruct (index_of 123%N s) as [i|] eqn:Ei; [|discriminate].
  destruct (index_of_skipn _ _ _ Ei) as [x Hx]. rewrite Hx in H.
  match type of H with context [last_index_of ?a ?b] =>
    destruct (last_index_of a b) as [j|] eqn:Ej end; [|discriminate H].
  inversion H; subst. exists (firstn j x). reflexivity.
Qed.

Lemma tryParse_brace_not_truthy_null : forall r,
  js_truthy (tryParseJsonWithRepairs (123%N :: r)) = true ->
  exists kvs, tryParseJsonWithRepairs (123%N :: r) = JObj kvs.
Proof.
  intros r H. destruct (tryParse_brace_null_or_obj r) as [E|E]; [|exact E].
  rewrite E in H. discriminate H.
Qed.

Lemma scan_objects_obj : forall t seen inS esc d v,
  (exists x, rev seen ++ t = 123%N :: x) ->
  scan_objects t seen inS esc d = Some v -> exists kvs, v = JObj kvs.
Proof.
  induction t as [|ch r IH]; intros seen inS esc d v [x Hx] H; simpl in H;
    [discriminate|].
  assert (Hn : exists x', rev (ch :: seen) ++ r = 123%N :: x').
  { exists x. simpl. rewrite <- app_assoc. exact Hx. }
  assert (Hc : exists y, rev seen ++ [ch] = 123%N :: y).
  { destruct (rev seen) as [|a l] eqn:Er.
    - simpl in Hx. inversion Hx; subst. exists []. reflexivity.
    - simpl in Hx. inversion Hx; subst. exists (l ++ [ch]). reflexivity. }
  destruct esc; [eapply IH; eauto|].
  destruct (ch =? 92)%N; [eapply IH; eauto|].
  destruct (ch =? 34)%N; [eapply IH; eauto|].
  destruct (negb inS); [|eapply IH; eauto].
  destruct (ch =? 123)%N; [eapply IH; eauto|].
  destruct (ch =? 125)%N; [|eapply IH; eauto].
  destruct (Z.eqb (d - 1) 0); [|eapply IH; eauto].
  match type of H with context [JSON_parse ?s] =>
    assert (Hc' : exists y, s = 123%N :: y) by exact Hc;
    destruct Hc' as [y Hy]; rewrite Hy in H end.
  match type of H with context [JSON_parse ?s] =>
    destruct (JSON_parse s) as [w|] eqn:Ep end.
  - inversion H; subst. eapply JSON_parse_brace_obj. exact Ep.
  - match type of H with context [js_truthy ?s] =>
      destruct (js_truthy s) eqn:Et end.
    + inversion H; subst. apply tryParse_brace_not_truthy_null. exact Et.
    + eapply IH; eauto.
Qed.

Lemma extractFirstJsonObj_shape : forall text,
  (extractFirstJsonObj text = JNull \/ exists kvs, extractFirstJsonObj text = JObj kvs)
  /\ (index_of 123%N text = None -> extractFirstJsonObj text = JNull).
Proof.
  intros text.
  assert (Hnone : index_of 123%N text = None -> extractFirstJsonObj text = JNull).
  { intros E. unfold extractFirstJsonObj. destruct text as [|c r]; [reflexivity|].
    rewrite E. unfold brace_span. rewrite E. reflexivity. }
  split; [|exact Hnone].
  destruct (index_of 123%N text) as [i|] eqn:Ei; [|left; apply Hnone; reflexivity].
  unfold extractFirstJsonObj. destruct text as [|c r]; [left; reflexivity|].
  rewrite Ei.
  destruct (index_of_skipn _ _ _ Ei) as [x Hx].
  destruct (scan_objects (skipn i (c :: r)) [] false false 0) as [v|] eqn:Es.
  - right. eapply scan_objects_obj; [|exact Es]. exists x. simpl. exact Hx.
  - destruct (brace_span (c :: r)) as [[|a m]|] eqn:Eb; try (left; reflexivity).
    destruct (brace_span_head _ _ Eb) as [y Hy]. inversion Hy; subst.
    apply tryParse_brace_null_or_obj.
Qed.

(** X2: [extractFirstJsonObj] returns [null] or an object: never an array, a
    string, a number or a boolean, whatever the model's text; and it returns
    [null] when the text has no opening brace. *)
Theorem extractFirstJsonObj_null_or_object : forall text,
  (extractFirstJsonObj text = JNull \/ exists kvs, extractFirstJsonObj text = JObj kvs)
  /\ (index_of 123%N text = None -> extractFirstJsonObj text = JNull).
Proof. exact extractFirstJsonObj_shape. Qed.

Lemma gemini_loop_calls : forall reply attempts fuel attempt calls lr,
  attempt + fuel = S attempts ->
  g_calls (gemini_loop reply attempts attempt fuel calls lr) <= calls + (2 * fuel - 1).
Proof.
  intros reply attempts. induction fuel as [|f IH]; intros attempt calls lr Hf;
    simpl; [lia|].
  destruct (reply calls) as [text|msg].
  - destruct (js_truthy (extractFirstJsonObj (js_trim text))); [simpl; lia|].
    destruct (Nat.ltb_spec attempt attempts) as [Hlt|Hge].
    + destruct (reply (S calls)) as [text2|msg2].
      * destruct (js_truthy (extractFirstJsonObj (js_trim text2))); [simpl; lia|].
        specialize (IH (S attempt) (S (S calls)) (js_trim text2) ltac:(lia)). lia.
      * specialize (IH (S attempt) (S (S calls)) (str_or (js_trim text) msg2) ltac:(lia)). lia.
    + specialize (IH (S attempt) (S calls) (js_trim text) ltac:(lia)). lia.
  - specialize (IH (S attempt) (S calls) (str_or lr msg) ltac:(lia)). lia.
Qed.

(** X3: [callGeminiWithRetry] calls the model at most [2 * attempts - 1]
    times: two calls (the prompt and the re-prompt) in each attempt but the
    last, one in the last. With the route's [attempts = 3], at most five
    calls per request. *)
Theorem callGeminiWithRetry_call_bound : forall reply attempts,
  g_calls (callGeminiWithRetry reply attempts) <= 2 * attempts - 1.
Proof.
  intros reply attempts. unfold callGeminiWithRetry.
  pose proof (gemini_loop_calls reply attempts attempts 1 0 [] ltac:(lia)). lia.
Qed.

Lemma gemini_loop_parsed : forall reply attempts fuel attempt calls lr,
  let r := gemini_loop reply attempts attempt fuel calls lr in
  g_parsed r = JNull
  \/ ((exists kvs, g_parsed r = JObj kvs)
      /\ g_parsed r = extractFirstJsonObj (g_raw r)
      /\ exists text, reply (pred (g_calls r)) = GenText text /\ g_raw r = js_trim text).
Proof.
  intros reply attempts. induction fuel as [|f IH]; intros attempt calls lr;
    simpl; [left; reflexivity|].
  destruct (reply calls) as [text|msg] eqn:Er.
  - destruct (js_truthy (extractFirstJsonObj (js_trim text))) eqn:Et.
    + right. simpl. split; [|split; [reflexivity|exists text; auto]].
      destruct (extractFirstJsonObj_shape (js_trim text)) as [[E|E] _];
        [rewrite E in Et; discriminate Et|exact E].
    + destruct (Nat.ltb attempt attempts); [|apply IH].
      destruct (reply (S calls)) as [text2|msg2] eqn:Er2; [|apply IH].
      destruct (js_truthy (extractFirstJsonObj (js_trim text2))) eqn:Et2; [|apply IH].
      right. simpl. split; [|split; [reflexivity|exists text2; auto]].
      destruct (extractFirstJsonObj_shape (js_trim text2)) as [[E|E] _];
        [rewrite E in Et2; discriminate Et2|exact E].
  - apply IH.
Qed.

(** X4: what [callGeminiWithRetry] returns as [parsed] is [null] or an
    object; when it is an object it is exactly what [extractFirstJsonObj]
    finds in the returned [raw], and [raw] is the trimmed text of the last
    model call made. *)
Theorem callGeminiWithRetry_parsed_from_last_raw : forall reply attempts,
  let r := callGeminiWithRetry reply attempts in
  g_parsed r = JNull
  \/ ((exists kvs, g_parsed r = JObj kvs)
      /\ g_parsed r = extractFirstJsonObj (g_raw r)
      /\ exists text, reply (pred (g_calls r)) = GenText text /\ g_raw r = js_trim text).
Proof.
  intros reply attempts. apply gemini_loop_parsed.
Qed.

Lemma gemini_loop_no_json : forall reply attempts,
  (forall k, exists text, reply k = GenText text
                          /\ extractFirstJsonObj (js_trim text) = JNull) ->
  forall fuel attempt calls lr, 1 <= fuel -> attempt + fuel = S attempts ->
  let r := gemini_loop reply attempts attempt fuel calls lr in
  g_calls r = calls + (2 * fuel - 1) /\ g_parsed r = JNull
  /\ exists text, reply (calls + (2 * fuel - 2)) = GenText text /\ g_raw r = js_trim text.
Proof.
  intros reply attempts Hall. induction fuel as [|f IH]; intros attempt calls lr H1 Hf;
    [lia|].
  simpl. destruct (Hall calls) as [text [Er Et]]. rewrite Er, Et. simpl js_truthy.
  cbv iota.
  destruct f as [|f'].
  - destruct (Nat.ltb_spec attempt attempts) as [Hlt|_]; [lia|].
    simpl. split; [lia|split; [reflexivity|]]. exists text. split; [|reflexivity].
    rewrite Nat.add_0_r. exact Er.
  - destruct (Nat.ltb_spec attempt attempts) as [_|Hge]; [|lia].
    destruct (Hall (S calls)) as [text2 [Er2 Et2]]. rewrite Er2, Et2. simpl js_truthy.
    cbv iota.
    destruct (IH (S attempt) (S (S calls)) (js_trim text2) ltac:(lia) ltac:(lia))
      as [Hc [Hp [t [Ht Hr]]]].
    split; [etransitivity; [exact Hc|lia]|split; [exact Hp|]].
    exists t. split; [|exact Hr].
    rewrite <- Ht. f_equal. lia.
Qed.

(** X5: when no model reply contains a JSON object, [callGeminiWithRetry]
    makes exactly [2 * attempts - 1] calls (a re-prompt after every attempt
    but the last) and returns [parsed = null] with [raw] the trimmed text of
    the last reply. *)
Theorem callGeminiWithRetry_exhausted : forall reply attempts,
  1 <= attempts ->
  (forall k, exists text, reply k = GenText text
                          /\ extractFirstJsonObj (js_trim text) = JNull) ->
  let r := callGeminiWithRetry reply attempts in
  g_calls r = 2 * attempts - 1 /\ g_parsed r = JNull
  /\ exists text, reply (2 * attempts - 2) = GenText text /\ g_raw r = js_trim text.
Proof.
  intros reply attempts H1 Hall. unfold callGeminiWithRetry.
  apply (gemini_loop_no_json reply attempts Hall attempts 1 0 []); lia.
Qed.

Lemma callGeminiWithRetry_exhausted_witness :
  (forall k : nat, exists text, (fun _ : nat => GenText (js "no json here")) k = GenText text
                                /\ extractFirstJsonObj (js_trim text) = JNull)
  /\ g_calls (callGeminiWithRetry (fun _ : nat => GenText (js "no json here")) 3) = 5
  /\ g_raw (callGeminiWithRetry (fun _ : nat => GenText (js "no json here")) 3)
     = js "no json here".
Proof.
  assert (Hall : forall k : nat, exists text,
            (fun _ : nat => GenText (js "no json here")) k = GenText text
            /\ extractFirstJsonObj (js_trim text) = JNull).
  { intros k. exists (js "no json here"). split; [reflexivity|vm_compute; reflexivity]. }
  split; [exact Hall|].
  destruct (callGeminiWithRetry_exhausted _ 3 ltac:(lia) Hall) as [Hc [_ [t [Ht Hr]]]].
  split; [exact Hc|]. rewrite Hr. injection Ht as <-. vm_compute. reflexivity.
Defined.

Lemma gemini_loop_all_throw : forall reply attempts,
  (forall k, exists msg, reply k = GenThrow msg) ->
  forall fuel attempt calls lr,
  let r := gemini_loop reply attempts attempt fuel calls lr in
  g_calls r = calls + fuel /\ g_parsed r = JNull
  /\ (lr <> [] -> g_raw r = lr)
  /\ (lr = [] ->
      (g_raw r = [] /\ forall j, calls <= j < calls + fuel -> reply j = GenThrow [])
      \/ (exists k, calls <= k < calls + fuel /\ reply k = GenThrow (g_raw r)
                   /\ g_raw r <> [] /\ forall j, calls <= j < k -> reply j = GenThrow [])).
Proof.
  intros reply attempts Hall. induction fuel as [|f IH]; intros attempt calls lr.
  - simpl. split; [lia|split; [reflexivity|split; [auto|]]].
    intros ->. left. split; [reflexivity|intros; lia].
  - simpl. destruct (Hall calls) as [msg Er]. rewrite Er.
    destruct (IH (S attempt) (S calls) (str_or lr msg)) as [Hc [Hp [Hne He]]].
    split; [lia|split; [exact Hp|split]].
    + intros Hlr. destruct lr as [|a l]; [congruence|].
      rewrite Hne; [reflexivity|discriminate].
    + intros ->. simpl str_or in *. destruct msg as [|a m].
      * destruct (He eq_refl) as [[Hr Hj]|[k [Hk [Ek [Hkne Hj]]]]].
        -- left. split; [exact Hr|]. intros j Hj'.
           destruct (Nat.eq_dec j calls) as [->|]; [exact Er|apply Hj; lia].
        -- right. exists k. split; [lia|split; [exact Ek|split; [exact Hkne|]]].
           intros j Hj'. destruct (Nat.eq_dec j calls) as [->|]; [exact Er|apply Hj; lia].
      * right. exists calls. rewrite (Hne ltac:(discriminate)).
        split; [lia|split; [exact Er|split; [discriminate|intros; lia]]].
Qed.

(** X6: when every model call throws, [callGeminiWithRetry] makes exactly
    [attempts] calls (an exception skips the re-prompt) and returns
    [parsed = null]; [raw] is the first non-empty error message, or empty
    when every message is empty. *)
Theorem callGeminiWithRetry_all_throw : forall reply attempts,
  (forall k, exists msg, reply k = GenThrow msg) ->
  let r := callGeminiWithRetry reply attempts in
  g_calls r = attempts /\ g_parsed r = JNull
  /\ ((g_raw r = [] /\ forall j, j < attempts -> reply j = GenThrow [])
      \/ (exists k, k < attempts /\ reply k = GenThrow (g_raw r) /\ g_raw r <> []
                   /\ forall j, j < k -> reply j = GenThrow [])).
Proof.
  intros reply attempts Hall. unfold callGeminiWithRetry.
  destruct (gemini_loop_all_throw reply attempts Hall attempts 1 0 [])
    as [Hc [Hp [_ He]]].
  split; [exact Hc|split; [exact Hp|]].
  destruct (He eq_refl) as [[Hr Hj]|[k [Hk [Ek [Hkne Hj]]]]].
  - left. split; [exact Hr|]. intros j Hj'. apply Hj. lia.
  - right. exists k. split; [lia|split; [exact Ek|split; [exact Hkne|]]].
    intros j Hj'. apply Hj. lia.
Qed.

Lemma callGeminiWithRetry_all_throw_witness :
  (forall k : nat, exists msg, (fun _ : nat => GenThrow (js "quota")) k = GenThrow msg)
  /\ g_calls (callGeminiWithRetry (fun _ : nat => GenThrow (js "quota")) 3) = 3
  /\ g_parsed (callGeminiWithRetry (fun _ : nat => GenThrow (js "quota")) 3) = JNull.
Proof.
  assert (Hall : forall k : nat, exists msg,
            (fun _ : nat => GenThrow (js "quota")) k = GenThrow msg).
  { intros k. exists (js "quota"). reflexivity. }
  split; [exact Hall|].
  destruct (callGeminiWithRetry_all_throw _ 3 Hall) as [Hc [Hp _]].
  split; [exact Hc|exact Hp].
Defined.


(** X8: when no model reply contains a JSON object, the logical-checks
    route (three attempts) answers 500 if the last reply is empty after
    trimming and 502 otherwise, and writes nothing. *)
Theorem logical_no_json_no_write : forall uid runId now reply,
  (forall k, exists text, reply k = GenText text
                          /\ extractFirstJsonObj (js_trim text) = JNull) ->
  let res := logical_after_model uid runId now (callGeminiWithRetry reply 3) in
  snd res = None
  /\ exists text, reply 4 = GenText text
     /\ fst (fst res) = (match js_trim text with [] => 500 | _ => 502 end)%Z.
Proof.
  intros uid runId now reply Hall.
  pose proof (gemini_loop_no_json reply 3 Hall 3 1 0 [] ltac:(lia) ltac:(lia)) as H.
  cbv zeta in H. destruct H as [_ [Hp [text [Ht Hr]]]].
  simpl in Ht. unfold logical_after_model. fold (callGeminiWithRetry reply 3) in Hp, Hr.
  destruct (callGeminiWithRetry reply 3) as [raw parsed calls]. simpl in Hp, Hr |- *.
  subst parsed raw. split.
  - destruct (js_trim text); reflexivity.
  - exists text. split; [exact Ht|]. destruct (js_trim text); reflexivity.
Qed.

Lemma logical_no_json_no_write_witness :
  (forall k : nat, exists text, (fun _ : nat => GenText (js "sorry")) k = GenText text
                                /\ extractFirstJsonObj (js_trim text) = JNull)
  /\ snd (logical_after_model (js "user_1") (Some (JStr (js "run_1"))) (js "now")
          (callGeminiWithRetry (fun _ : nat => GenText (js "sorry")) 3)) = None.
Proof.
  assert (Hall : forall k : nat, exists text,
            (fun _ : nat => GenText (js "sorry")) k = GenText text
            /\ extractFirstJsonObj (js_trim text) = JNull).
  { intros k. exists (js "sorry"). split; [reflexivity|vm_compute; reflexivity]. }
  split; [exact Hall|].
  destruct (logical_no_json_no_write (js "user_1") (Some (JStr (js "run_1"))) (js "now") _ Hall)
    as [Hs _].
  exact Hs.
Defined.

Lemma str_filter_match_refl : forall s, str_filter_match s (Some (JStr s)) = true.
Proof. intros s. apply jsstr_eqb_refl. Qed.

Lemma find_upsert_same : forall rm rseed db r u a now,
  exists d, find_analysis (upsert_analysis rm rseed db (JStr r) u a now) r u = Some d
            /\ ma_analysis d = a /\ ma_status d = js "completed" /\ ma_updatedAt d = now.
Proof.
  intros rm rseed. induction db as [|d rest IH]; intros r u a now.
  - cbn [upsert_analysis find_analysis ma_runId ma_userId].
    rewrite str_filter_match_refl, jsstr_eqb_refl. simpl.
    eexists. split; [reflexivity|auto].
  - cbn [upsert_analysis runId_filter].
    destruct (str_filter_match r (ma_runId d) && jsstr_eqb (ma_userId d) u) eqn:E.
    + cbn [find_analysis ma_runId ma_userId]. rewrite E.
      eexists. split; [reflexivity|auto].
    + cbn [find_analysis]. rewrite E. apply IH.
Qed.



Lemma same_value_zero_JStr_l : forall s k,
  same_value_zero (JStr s) k = true -> k = JStr s.
Proof.
  intros s [| | | s'| |] H; simpl in H; try discriminate H.
  apply jsstr_eqb_eq in H. subst. reflexivity.
Qed.

Lemma same_value_zero_JStr_r : forall s k,
  same_value_zero k (JStr s) = true -> k = JStr s.
Proof.
  intros s [| | | s'| |] H; simpl in H; try discriminate H.
  apply jsstr_eqb_eq in H. subst. reflexivity.
Qed.

Lemma lock_has_JStr : forall locks s, lock_has locks (JStr s) = true <-> In (JStr s) locks.
Proof.
  intros locks s. unfold lock_has. rewrite existsb_exists. split.
  - intros [k [Hin Hk]]. apply same_value_zero_JStr_l in Hk. subst. exact Hin.
  - intros Hin. exists (JStr s). split; [exact Hin|]. simpl. apply jsstr_eqb_refl.
Qed.

Lemma lock_set_incl : forall locks k x, In x locks -> In x (lock_set locks k).
Proof.
  intros locks k x H. unfold lock_set. destruct (lock_has locks k); [exact H|].
  apply in_or_app. left. exact H.
Qed.

(** A request never releases the lock of a session it is not for. *)
Lemma combine_locked_keeps_lock : forall env u b ex locks s,
  In (JStr s) locks -> In (JStr s) (snd (combine_locked env u b ex locks)).
Proof.
  intros env u b ex locks s H. unfold combine_locked.
  destruct env; [|exact H]. simpl negb. cbv iota.
  destruct u as [[|c u]|]; try exact H.
  destruct b as [b|]; [|exact H].
  destruct (prop (Some b) (js "sessionId")) as [[sid|]|]; try exact H.
  destruct (negb (js_truthy sid)); [exact H|].
  destruct (lock_has locks sid) eqn:Eh; [exact H|].
  assert (Hkeep : In (JStr s) (lock_delete (lock_set locks sid) sid)).
  { unfold lock_delete. apply filter_In. split; [apply lock_set_incl; exact H|].
    destruct (same_value_zero sid (JStr s)) eqn:E; [|reflexivity].
    apply same_value_zero_JStr_r in E. subst sid.
    apply lock_has_JStr in H. congruence. }
  destruct ex; simpl; try exact Hkeep; apply lock_set_incl; exact H.
Qed.

Lemma combine_locked_busy : forall r s locks,
  request_for r s -> s <> [] -> In (JStr s) locks ->
  combine_locked (cr_env_ok r) (cr_userId r) (cr_body r) (cr_exit r) locks
  = (Respond 429%Z, locks).
Proof.
  intros r s locks [He [[u [Hu Hne]] [b [Hb Hs]]]] Hsne Hin.
  unfold combine_locked. rewrite He, Hu, Hb. simpl negb. cbv iota.
  destruct u as [|c u]; [congruence|].
  destruct b as [| | | | |kvs]; try (simpl in Hs; discriminate Hs).
  simpl prop. simpl in Hs. rewrite Hs.
  destruct s as [|x s']; [congruence|]. simpl js_truthy. simpl negb. cbv iota.
  apply lock_has_JStr in Hin. rewrite Hin. reflexivity.
Qed.

Lemma combine_run_busy : forall reqs locks s,
  s <> [] -> In (JStr s) locks ->
  forall i r, nth_error reqs i = Some r -> request_for r s ->
  nth_error (fst (combine_run locks reqs)) i = Some (Respond 429%Z).
Proof.
  induction reqs as [|r0 rest IH]; intros locks s Hs Hin i r Hi Hr;
    [destruct i; discriminate Hi|].
  simpl. pose proof (combine_locked_keeps_lock (cr_env_ok r0) (cr_userId r0)
                       (cr_body r0) (cr_exit r0) locks s Hin) as Hk.
  destruct (combine_locked (cr_env_ok r0) (cr_userId r0) (cr_body r0) (cr_exit r0) locks)
    as [o locks1] eqn:E.
  destruct (combine_run locks1 rest) as [os locks2] eqn:Er.
  destruct i as [|i].
  - simpl in Hi. inversion Hi; subst r0. simpl.
    rewrite (combine_locked_busy r s locks Hr Hs Hin) in E. inversion E. reflexivity.
  - simpl. simpl in Hi. simpl in Hk.
    pose proof (IH locks1 s Hs Hk i r Hi Hr) as H. rewrite Er in H. exact H.
Qed.

(** X12: a combine request for session [s] whose processing throws after
    the lock is taken (a database error, or the abort of the model request
    by its 9-second timer) makes the handler reject with a [ReferenceError]
    instead of answering (so never with the 504 timeout response), and
    leaves the lock set: every later request for [s], from any user, is
    answered 429 by the same process. *)
Theorem combine_failure_leaves_session_locked : forall uid s name locks reqs,
  uid <> [] -> s <> [] -> lock_has locks (JStr s) = false ->
  let r0 := {| cr_env_ok := true; cr_userId := Some uid;
               cr_body := Some (JObj [(js "sessionId", JStr s)]);
               cr_exit := ExitThrow name |} in
  let outs := fst (combine_run locks (r0 :: reqs)) in
  hd_error outs = Some (Reject (js "ReferenceError"))
  /\ forall i r, nth_error reqs i = Some r -> request_for r s ->
     nth_error outs (S i) = Some (Respond 429%Z).
Proof.
  intros uid s name locks reqs Hu Hs Hfree. cbv zeta.
  assert (E0 : combine_locked true (Some uid) (Some (JObj [(js "sessionId", JStr s)]))
                 (ExitThrow name) locks
               = (Reject (js "ReferenceError"), lock_set locks (JStr s))).
  { unfold combine_locked. destruct uid as [|c u]; [congruence|].
    destruct s as [|x s']; [congruence|]. simpl. simpl in Hfree. rewrite Hfree.
    reflexivity. }
  simpl combine_run. rewrite E0.
  assert (Hin : In (JStr s) (lock_set locks (JStr s))).
  { unfold lock_set. rewrite Hfree. apply in_or_app. right. left. reflexivity. }
  pose proof (combine_run_busy reqs _ _ Hs Hin) as Hb.
  destruct (combine_run (lock_set locks (JStr s)) reqs) as [os locks2] eqn:Er.
  simpl. split; [reflexivity|].
  intros i r Hi Hr. specialize (Hb i r Hi Hr). simpl in Hb. exact Hb.
Qed.

Lemma combine_failure_leaves_session_locked_witness :
  let r1 := {| cr_env_ok := true; cr_userId := Some (js "user_1");
               cr_body := Some (JObj [(js "sessionId", JStr (js "sess_1"))]);
               cr_exit := ExitStored |} in
  request_for r1 (js "sess_1")
  /\ nth_error (fst (combine_run []
       ({| cr_env_ok := true; cr_userId := Some (js "user_1");
           cr_body := Some (JObj [(js "sessionId", JStr (js "sess_1"))]);
           cr_exit := ExitThrow (js "TypeError") |} :: [r1]))) 1
     = Some (Respond 429%Z).
Proof.
  intros r1.
  assert (Hr : request_for r1 (js "sess_1")).
  { split; [reflexivity|split].
    - exists (js "user_1"). split; [reflexivity|discriminate].
    - eexists. split; [reflexivity|reflexivity]. }
  split; [exact Hr|].
  destruct (combine_failure_leaves_session_locked (js "user_1") (js "sess_1") (js "TypeError")
              [] [r1] ltac:(discriminate) ltac:(discriminate) ltac:(reflexivity)) as [_ H].
  exact (H 0 r1 eq_refl Hr).
Defined.

Lemma process_row_from_frame : forall row cols i obj k,
  Forall (fun c => c <> k \/ c = proto_key) cols ->
  obj_lookup (process_row_from row i cols obj) k = obj_lookup obj k.
Proof.
  intros row cols. induction cols as [|c rest IH]; intros i obj k H; [reflexivity|].
  inversion H as [|? ? Hc Hrest]; subst. simpl. rewrite IH by exact Hrest.
  unfold set_cell. destruct (jsstr_eqb c proto_key) eqn:E; [reflexivity|].
  apply obj_lookup_set_other. destruct Hc as [Hc|Hc]; [exact Hc|].
  subst. rewrite jsstr_eqb_refl in E. discriminate E.
Qed.

Lemma process_row_from_last : forall row cols i obj j k,
  nth_error cols j = Some k -> k <> proto_key ->
  (forall j', j < j' -> nth_error cols j' <> Some k) ->
  obj_lookup (process_row_from row i cols obj) k
  = Some (JStr (cell_text (nth_error row (i + j)))).
Proof.
  intros row cols. induction cols as [|c rest IH]; intros i obj j k Hj Hk Hlast;
    [destruct j; discriminate Hj|].
  destruct j as [|j].
  - simpl in Hj. inversion Hj; subst c. simpl.
    rewrite process_row_from_frame.
    + unfold set_cell. destruct (jsstr_eqb k proto_key) eqn:E.
      * apply jsstr_eqb_eq in E. contradiction.
      * rewrite obj_lookup_set_same, Nat.add_0_r. reflexivity.
    + apply Forall_forall. intros c Hc. left. intros ->.
      apply In_nth_error in Hc as [n Hn]. apply (Hlast (S n)); [lia|exact Hn].
  - simpl. rewrite (IH (S i) _ j k Hj Hk).
    + rewrite Nat.add_succ_r. reflexivity.
    + intros j' Hj'. apply (Hlast (S j')). lia.
Qed.

(** X13: [processFileData] gives column names made only of ASCII letters,
    digits, [_], [-] and whitespace; one column per header cell (less a
    leading numeric index cell) and one data row per record after the
    header. For a CSV file no column is dropped: csv-parse yields strings,
    so the index-column test never holds. *)
Theorem costs_process_columns : forall csv_parse xlsx_rows buffer filename ct,
  let records := if isCSV ct filename then map (map CellStr) (csv_parse buffer)
                 else xlsx_rows buffer in
  let res := processFileData csv_parse xlsx_rows buffer filename ct in
  Forall (fun k => forallb col_char k = true) (fst res)
  /\ List.length (snd res) = List.length records - 1
  /\ List.length (fst res)
     = List.length (hd [] records) - (if has_index_column (hd [] records) then 1 else 0)
  /\ (isCSV ct filename = true ->
      fst res = map (fun s => header_name (CellStr s)) (hd [] (csv_parse buffer))).
Proof.
  intros csv_parse xlsx_rows buffer filename ct. cbv zeta.
  unfold processFileData.
  assert (Hgen : forall records : list (list cell),
    Forall (fun k => forallb col_char k = true) (fst (process_table records))
    /\ List.length (snd (process_table records)) = List.length records - 1
    /\ List.length (fst (process_table records))
       = List.length (hd [] records) - (if has_index_column (hd [] records) then 1 else 0)).
  { intros records. unfold process_table. simpl fst. simpl snd.
    split; [|split].
    - apply Forall_map. apply Forall_forall. intros c _. unfold header_name.
      apply forallb_forall. intros x Hx. apply filter_In in Hx. apply Hx.
    - rewrite length_map. destruct records; simpl; lia.
    - rewrite length_map. destruct records as [|h r]; [reflexivity|]. simpl hd.
      destruct (has_index_column h) eqn:E; [|lia].
      destruct h as [|c h]; [discriminate E|]. simpl. lia. }
  destruct (isCSV ct filename); [|destruct (Hgen (xlsx_rows buffer)) as [A [B C]];
                                  split; [exact A|split; [exact B|split; [exact C|discriminate]]]].
  destruct (Hgen (map (map CellStr) (csv_parse buffer))) as [A [B C]].
  split; [exact A|split; [exact B|split; [exact C|]]].
  intros _. unfold process_table. simpl fst.
  destruct (csv_parse buffer) as [|h r]; [reflexivity|]. simpl.
  destruct h as [|s h]; simpl; [reflexivity|].
  rewrite map_map. reflexivity.
Qed.

(** X14: each data row of [processFileData] is an object whose keys are
    column names other than [__proto__]; the value under a column name is
    the trimmed text of the row's cell at the last column with that name
    (the empty string when the row is shorter), so of two header cells with the same
    cleaned name only the later one's values are kept. *)
Theorem costs_process_rows : forall records n row,
  nth_error (tl records) n = Some row ->
  let hdr := hd [] records in
  let cells := if has_index_column hdr then tl row else row in
  let columns := fst (process_table records) in
  let obj := processRow cells columns in
  nth_error (snd (process_table records)) n = Some obj
  /\ (forall k v, obj_lookup obj k = Some v -> In k columns /\ k <> proto_key)
  /\ (forall j k, nth_error columns j = Some k -> k <> proto_key ->
      (forall j', j < j' -> nth_error columns j' <> Some k) ->
      obj_lookup obj k = Some (JStr (cell_text (nth_error cells j)))).
Proof.
  intros records n row Hn. cbv zeta.
  split; [|split].
  - unfold process_table. simpl snd. rewrite nth_error_map, Hn. reflexivity.
  - intros k v Hk.
    destruct (in_dec (list_eq_dec N.eq_dec) k (fst (process_table records))) as [Hin|Hnin].
    + split; [exact Hin|]. intros Hp. unfold processRow in Hk.
      rewrite process_row_from_frame in Hk; [discriminate Hk|].
      apply Forall_forall. intros c _. subst k.
      destruct (list_eq_dec N.eq_dec c proto_key) as [E|E]; [right; exact E|left; exact E].
    + unfold processRow in Hk. rewrite process_row_from_frame in Hk; [discriminate Hk|].
      apply Forall_forall. intros c Hc. left. intros ->. contradiction.
  - intros j k Hj Hk Hlast. unfold processRow.
    rewrite (process_row_from_last _ _ 0 [] j k Hj Hk Hlast). reflexivity.
Qed.

Lemma costs_process_rows_witness :
  nth_error (tl [[CellStr (js "sku"); CellStr (js "cost")];
                 [CellStr (js "A1"); CellNum (js "4.5")]]) 0
  = Some [CellStr (js "A1"); CellNum (js "4.5")]
  /\ nth_error (snd (process_table [[CellStr (js "sku"); CellStr (js "cost")];
                                   [CellStr (js "A1"); CellNum (js "4.5")]])) 0
     = Some (processRow [CellStr (js "A1"); CellNum (js "4.5")] [js "sku"; js "cost"]).
Proof.
  split; [reflexivity|].
  destruct (costs_process_rows [[CellStr (js "sku"); CellStr (js "cost")];
                                [CellStr (js "A1"); CellNum (js "4.5")]] 0
              [CellStr (js "A1"); CellNum (js "4.5")] eq_refl) as [H _].
  rewrite H. vm_compute. reflexivity.
Defined.

Lemma process_table_empty : forall records,
  let hdr := hd [] records in
  let rawColumns := if has_index_column hdr then tl hdr else hdr in
  (fst (process_table records) = [] \/ snd (process_table records) = [])
  <-> List.length records <= 1 \/ rawColumns = [].
Proof.
  intros records. cbv zeta. unfold process_table. simpl fst. simpl snd.
  split.
  - intros [H|H].
    + right. apply map_eq_nil in H. exact H.
    + left. apply map_eq_nil in H. destruct records as [|h r]; simpl in *; [lia|].
      subst. simpl. lia.
  - intros [H|H].
    + right. destruct records as [|h [|h2 r]]; simpl in *; [reflexivity|reflexivity|lia].
    + left. destruct records as [|h r]; simpl in *; [reflexivity|rewrite H; reflexivity].
Qed.

(** X15: after [processFileData], the costs route answers 400 ["No valid
    data found in file"] exactly when the parsed table has at most one row
    (a header and no data) or its header has no cell besides a leading
    numeric index cell. *)
Theorem costs_no_data_400 : forall csv_parse xlsx_rows buffer filename ct,
  let records := if isCSV ct filename then map (map CellStr) (csv_parse buffer)
                 else xlsx_rows buffer in
  let hdr := hd [] records in
  let rawColumns := if has_index_column hdr then tl hdr else hdr in
  (costs_data_check csv_parse xlsx_rows buffer filename ct <> None
   <-> List.length records <= 1 \/ rawColumns = [])
  /\ (costs_data_check csv_parse xlsx_rows buffer filename ct = None
      \/ costs_data_check csv_parse xlsx_rows buffer filename ct
         = Some (400%Z, JObj [(js "error", JStr (js "No valid data found in file"))])).
Proof.
  intros csv_parse xlsx_rows buffer filename ct. cbv zeta.
  pose proof (process_table_empty (if isCSV ct filename
                                   then map (map CellStr) (csv_parse buffer)
                                   else xlsx_rows buffer)) as He.
  cbv zeta in He. rewrite <- He. clear He.
  unfold costs_data_check.
  assert (Hp : processFileData csv_parse xlsx_rows buffer filename ct
               = process_table (if isCSV ct filename
                                then map (map CellStr) (csv_parse buffer)
                                else xlsx_rows buffer))
    by (unfold processFileData; destruct (isCSV ct filename); reflexivity).
  rewrite Hp.
  destruct (process_table _) as [columns data]. simpl fst. simpl snd.
  destruct columns as [|c cs]; [|destruct data as [|d ds]].
  - split; [split; [intros _; left; reflexivity|intros _; discriminate]|right; reflexivity].
  - split; [split; [intros _; right; reflexivity|intros _; discriminate]|right; reflexivity].
  - split; [split; [intros H; exfalso; apply H; reflexivity|]|left; reflexivity].
    intros [H|H]; discriminate H.
Qed.

Lemma res_mapA_app : forall (A B : Type) (f : A -> res B) l1 l2,
  res_mapA f (l1 ++ l2)
  = (r1 <- res_mapA f l1 ;; r2 <- res_mapA f l2 ;; Ok (r1 ++ r2)).
Proof.
  intros A B f l1 l2. induction l1 as [|x l1 IH]; simpl.
  - destruct (res_mapA f l2); reflexivity.
  - destruct (f x); [|reflexivity]. rewrite IH.
    destruct (res_mapA f l1); [|reflexivity].
    destruct (res_mapA f l2); reflexivity.
Qed.

Lemma add_batches_spec : forall member data hs fuel i sheet,
  List.length data <= i + fuel * batchSize ->
  add_batches member fuel i data hs sheet
  = (rows <- res_mapA (row_values member hs) (skipn i data) ;; Ok (sheet ++ rows)).
Proof.
  intros member data hs. induction fuel as [|f IH]; intros i sheet Hlen.
  - simpl. rewrite skipn_all2 by lia. simpl. rewrite app_nil_r. reflexivity.
  - cbn [add_batches]. destruct (Nat.ltb_spec i (List.length data)) as [Hlt|Hge].
    + rewrite <- (firstn_skipn batchSize (skipn i data)) at 2.
      rewrite res_mapA_app.
      destruct (res_mapA (row_values member hs) (firstn batchSize (skipn i data)))
        as [rows1|e]; [|reflexivity].
      rewrite IH by (unfold batchSize in *; lia).
      rewrite skipn_skipn, (Nat.add_comm batchSize i).
      destruct (res_mapA (row_values member hs) (skipn (i + batchSize) data)); [|reflexivity].
      rewrite app_assoc. reflexivity.
    + rewrite skipn_all2 by lia. cbn. rewrite app_nil_r. reflexivity.
Qed.

(** X16: the combined sheet written in batches of 1000 rows is the sheet of
    a single pass: a header row with [Object.keys] of the first record, then
    one row per record, in order, holding that record's value under each
    header (or a single ["No data combined"] row when there is no record);
    so it has one row more than there are records and every row has one cell
    per header. *)
Theorem combined_sheet_single_pass : forall object_keys member data,
  combined_sheet object_keys member data
  = match data with
    | [] => Ok [[Some (JStr (js "No data combined"))]]
    | first :: _ =>
        hs <- object_keys first ;;
        rows <- res_mapA (row_values member hs) data ;;
        Ok (map (fun h => Some (JStr h)) hs :: rows)
    end
  /\ forall first rest sheet, data = first :: rest ->
     combined_sheet object_keys member data = Ok sheet ->
     exists hs, object_keys first = Ok hs
                /\ List.length sheet = S (List.length data)
                /\ Forall (fun row => List.length row = List.length hs) sheet.
Proof.
  intros object_keys member data.
  assert (Heq : combined_sheet object_keys member data
    = match data with
      | [] => Ok [[Some (JStr (js "No data combined"))]]
      | first :: _ =>
          hs <- object_keys first ;;
          rows <- res_mapA (row_values member hs) data ;;
          Ok (map (fun h => Some (JStr h)) hs :: rows)
      end).
  { unfold combined_sheet. destruct data as [|first rest]; [reflexivity|].
    destruct (object_keys first) as [hs|e]; [|reflexivity].
    rewrite add_batches_spec by (unfold batchSize; simpl; lia).
    reflexivity. }
  split; [exact Heq|].
  intros first rest sheet Hd Hs. rewrite Heq in Hs. subst data.
  destruct (object_keys first) as [hs|e]; [|discriminate Hs].
  exists hs. split; [reflexivity|].
  assert (Hrows : forall l rows, res_mapA (row_values member hs) l = Ok rows ->
            List.length rows = List.length l
            /\ Forall (fun row => List.length row = List.length hs) rows).
  { induction l as [|x l IH]; intros rows H; simpl in H.
    - inversion H; subst. split; [reflexivity|constructor].
    - destruct (row_values member hs x) as [y|e] eqn:Ey; [|discriminate H].
      destruct (res_mapA (row_values member hs) l) as [ys|e]; [|discriminate H].
      inversion H; subst. destruct (IH ys eq_refl) as [IH1 IH2].
      split; [simpl; rewrite IH1; reflexivity|]. constructor; [|exact IH2].
      unfold row_values in Ey. clear -Ey.
      revert y Ey. induction hs as [|h hs IHh]; intros y Ey; simpl in Ey.
      + inversion Ey; reflexivity.
      + destruct (member x h); [|discriminate Ey].
        destruct (res_mapA (member x) hs) as [zs|e]; [|discriminate Ey].
        inversion Ey; subst. simpl. rewrite (IHh zs eq_refl). reflexivity. }
  destruct (res_mapA (row_values member hs) (first :: rest)) as [rows|e] eqn:Er;
    [|discriminate Hs].
  inversion Hs; subst sheet. destruct (Hrows _ _ Er) as [H1 H2].
  split; [simpl; rewrite H1; reflexivity|].
  constructor; [rewrite length_map; reflexivity|exact H2].
Qed.

Lemma get_row_firstn : forall ws i, 1 <= i <= 4 -> get_row (firstn 4 ws) i = get_row ws i.
Proof.
  intros ws i Hi. unfold get_row. rewrite nth_error_firstn.
  destruct (Nat.ltb_spec (i - 1) 4); [reflexivity|lia].
Qed.

Lemma sample_rows_firstn : forall ws n i, 2 <= i -> i + n <= 5 ->
  sample_rows (firstn 4 ws) i n = sample_rows ws i n.
Proof.
  intros ws. induction n as [|n IH]; intros i Hi Hn; [reflexivity|].
  cbn [sample_rows]. rewrite get_row_firstn by lia. rewrite IH by lia. reflexivity.
Qed.

(** X17: the text of a file in the combine prompt depends only on the
    file name and the first four rows of its first sheet (the header row
    and at most three sample rows): the rest of the file never reaches the
    model. *)
Theorem dataset_text_first_four_rows : forall filename ws,
  dataset_text filename ws = dataset_text filename (firstn 4 ws).
Proof.
  intros filename ws. unfold dataset_text.
  rewrite length_firstn. rewrite get_row_firstn by lia.
  replace (Nat.min (Nat.min 4 (List.length ws)) 4) with (Nat.min (List.length ws) 4) by lia.
  rewrite sample_rows_firstn by lia. reflexivity.
Qed.

